(** * convert.py: Kaspersky Password Manager export to a Google Passwords table

    A shallow embedding of [src/convert.py].  Python's [str] is a sequence
    of Unicode code points: it is modelled as [list N].  The string methods
    the program calls ([find], [rfind], slicing, [strip], [split],
    [splitlines]) are written out with the behaviour CPython gives them;
    the dictionaries are stdpp's [gmap]; the calls into pydantic, numpy and
    pandas are modelled by what they do to the values this program hands
    them. *)

From Stdlib Require Import ZArith NArith Ascii String List Bool Lia.
From stdpp Require Import base option list gmap.

Import ListNotations.
Local Open Scope Z_scope.

(** ** Python strings *)

Abbreviation char := N (only parsing).
Abbreviation str := (list N) (only parsing).

(** An ASCII literal as a Python string. *)
Definition lit (s : string) : str :=
  List.map N_of_ascii (list_ascii_of_string s).

Definition NL : char := 10%N.

(** [len(s)] *)
Definition len (s : str) : Z := Z.of_nat (length s).

(** [s.startswith(p)] *)
Fixpoint startswith (s p : str) {struct p} : bool :=
  match p with
  | [] => true
  | a :: p' =>
      match s with
      | [] => false
      | b :: s' => (a =? b)%N && startswith s' p'
      end
  end.

(** The lowest index at which [sub] occurs in [s], if any. *)
Fixpoint find_nat (s sub : str) : option nat :=
  if startswith s sub then Some 0%nat
  else match s with
       | [] => None
       | _ :: s' => option_map S (find_nat s' sub)
       end.

(** The highest index at which [sub] occurs in [s], if any. *)
Fixpoint rfind_nat (s sub : str) : option nat :=
  match s with
  | [] => if startswith [] sub then Some 0%nat else None
  | _ :: s' =>
      match rfind_nat s' sub with
      | Some i => Some (S i)
      | None => if startswith s sub then Some 0%nat else None
      end
  end.

(** [s.find(sub)] and [s.rfind(sub)]: the index, or the sentinel [-1]. *)
Definition find (s sub : str) : Z :=
  match find_nat s sub with Some i => Z.of_nat i | None => -1 end.

Definition rfind (s sub : str) : Z :=
  match rfind_nat s sub with Some i => Z.of_nat i | None => -1 end.

(** Slice bounds as CPython adjusts them: a negative index counts from the
    end, and the result is clipped to [0, len]. *)
Definition adjust_index (n i : Z) : Z :=
  if i <? 0 then Z.max 0 (i + n) else Z.min i n.

(** [s[i:j]] *)
Definition slice (s : str) (i j : Z) : str :=
  let a := adjust_index (len s) i in
  let b := adjust_index (len s) j in
  take (Z.to_nat (b - a)) (drop (Z.to_nat a) s).

(** [s.lstrip(chars)], [s.rstrip(chars)] and [s.strip(chars)], the set of
    characters given as a predicate. *)
Fixpoint lstrip (p : char -> bool) (s : str) : str :=
  match s with
  | [] => []
  | c :: s' => if p c then lstrip p s' else s
  end.

Fixpoint rstrip (p : char -> bool) (s : str) : str :=
  match s with
  | [] => []
  | c :: s' =>
      match rstrip p s' with
      | [] => if p c then [] else [c]
      | r => c :: r
      end
  end.

Definition strip (p : char -> bool) (s : str) : str := rstrip p (lstrip p s).

Definition is_newline (c : char) : bool := (c =? NL)%N.

(** [s.strip("\n")] *)
Definition strip_nl (s : str) : str := strip is_newline s.

(** [s.split(sep)] for a non-empty [sep]: the pieces between the
    occurrences of [sep], found from the left and not overlapping.
    [split_go sep skip s] returns the first piece and the later ones;
    [skip] counts the characters of a separator still to be passed. *)
Fixpoint split_go (sep : str) (skip : nat) (s : str) : str * list str :=
  match s with
  | [] => ([], [])
  | c :: s' =>
      match skip with
      | S k => split_go sep k s'
      | O =>
          if startswith s sep
          then ([], let '(h, t) := split_go sep (length sep - 1) s' in h :: t)
          else let '(h, t) := split_go sep 0 s' in (c :: h, t)
      end
  end.

Definition split (s sep : str) : list str :=
  let '(h, t) := split_go sep 0 s in h :: t.

(** [s.count(sep)] for a non-empty [sep]: the number of occurrences found
    from the left, not overlapping. *)
Fixpoint count_go (sep : str) (skip : nat) (s : str) : nat :=
  match s with
  | [] => 0
  | _ :: s' =>
      match skip with
      | S k => count_go sep k s'
      | O =>
          if startswith s sep then S (count_go sep (length sep - 1) s')
          else count_go sep 0 s'
      end
  end.

Definition count (s sep : str) : nat := count_go sep 0 s.

(** [s.split(sep, maxsplit=1)]: cut at the first occurrence only. *)
Definition split_maxsplit1 (s sep : str) : list str :=
  match find_nat s sep with
  | None => [s]
  | Some i => [take i s; drop (i + length sep) s]
  end.

(** The line boundaries of [str.splitlines]. *)
Definition CR : char := 13%N.

Definition is_linebreak (c : char) : bool :=
  existsb (N.eqb c)
    [10; 13; 11; 12; 28; 29; 30; 133; 8232; 8233]%N.

(** [s.splitlines()]: the lines without their terminators; a CR LF pair is
    one terminator, and a terminator at the very end opens no further line,
    so that the empty string has no line at all.  [after_cr] says that the
    previous character was a CR that closed a line. *)
Fixpoint splitlines_go (after_cr : bool) (s : str) : list str :=
  match s with
  | [] => []
  | c :: s' =>
      if after_cr && (c =? NL)%N then splitlines_go false s'
      else if is_linebreak c then [] :: splitlines_go (c =? CR)%N s'
      else match splitlines_go false s' with
           | [] => [[c]]
           | l :: ls => (c :: l) :: ls
           end
  end.

Definition splitlines (s : str) : list str := splitlines_go false s.

(** ** Exceptions *)

Inductive exn : Type :=
| TypeError_init           (* a keyword argument named like the first
                              parameter of [BaseModel.__init__] *)
| ValueError_unpack        (* [key, value = splitted]: not two values *)
| ValueError_concatenate   (* np.concatenate: the arrays differ in shape *)
| ValueError_DataFrame.    (* DataFrame: the values do not fit the columns *)

Inductive result (A : Type) : Type :=
| Ok (a : A)
| Raise (e : exn).
Arguments Ok {A} a.
Arguments Raise {A} e.

Definition bind {A B : Type} (r : result A) (k : A -> result B) : result B :=
  match r with
  | Ok a => k a
  | Raise e => Raise e
  end.

(** A list comprehension [[f(x) for x in l]] whose body may raise: the
    elements are computed from left to right and the first exception ends
    the evaluation. *)
Fixpoint comprehension {A B : Type} (f : A -> result B) (l : list A)
  : result (list B) :=
  match l with
  | [] => Ok []
  | x :: l' =>
      bind (f x) (fun y => bind (comprehension f l') (fun ys => Ok (y :: ys)))
  end.

(** ** Parsing record blocks *)

Definition COLON_SPACE : str := lit ": ".

(** [key_value_from_line] *)
Definition key_value_from_line (key_value : str) : result (str * str) :=
  let splitted := split_maxsplit1 key_value COLON_SPACE in
  match splitted with
  | [only] => Ok (only, [])
  | [key; value] => Ok (key, value)
  | _ => Raise ValueError_unpack
  end.

(** The dict comprehension [{pair[0]: pair[1] for pair in pairs}]: pairs
    are entered from left to right, a later key overwriting an earlier
    one. *)
Definition dict_of_pairs (pairs : list (str * str)) : gmap str str :=
  fold_left (fun d kv => <[kv.1 := kv.2]> d) pairs ∅.

(** [parse_colon_separated_key_value_pairs] *)
Definition parse_colon_separated_key_value_pairs (entry : str)
  : result (gmap str str) :=
  let stripped := strip_nl entry in
  let lines := splitlines stripped in
  bind (comprehension key_value_from_line lines)
    (fun key_value_pairs => Ok (dict_of_pairs key_value_pairs)).

Definition RECORD_DELIMITER : str := lit "---".

(** [parse_entries_section] *)
Definition parse_entries_section (txt : str) : result (list (gmap str str)) :=
  let entries := split txt RECORD_DELIMITER in
  comprehension parse_colon_separated_key_value_pairs entries.

(** ** The pydantic models

    Every field is [Optional[str]] with default [None] and an alias, and
    is populated from the keyword argument named by its alias: the
    attribute [allow_population_by_alias] of the shared [Config] is not one
    that pydantic reads, so the field's own name populates nothing.  Keys
    of the keyword arguments that name no alias are ignored, and a [str]
    value is stored as it is.  The constructor is
    [BaseModel.__init__(__pydantic_self__, **data)]: a RawEntry with the
    key [__pydantic_self__] makes the call raise [TypeError]. *)
Definition populate_field (data : gmap str str) (alias : string) : option str :=
  data !! lit alias.

Definition PYDANTIC_SELF : str := lit "__pydantic_self__".

Definition clashes_with_init (data : gmap str str) : bool :=
  match data !! PYDANTIC_SELF with
  | Some _ => true
  | None => false
  end.

Definition HTTPS : str := lit "https://".
Definition HTTP : str := lit "http://".

Module KasperskyWebsiteEntry.
Record t : Type := mk
  { website_name : option str;
    website_url : option str;
    login_name : option str;
    login : option str;
    password : option str;
    comment : option str }.

(** The constructor call on a dict unpacked into keyword arguments. *)
Definition of_dict (entry : gmap str str) : result t :=
  if clashes_with_init entry then Raise TypeError_init
  else
    Ok {| website_name := populate_field entry "Website name";
          website_url := populate_field entry "Website URL";
          login_name := populate_field entry "Login name";
          login := populate_field entry "Login";
          password := populate_field entry "Password";
          comment := populate_field entry "Comment" |}.

(** The class method [name_must_contain_space]: it is a plain class
    method, registered nowhere as a validator, and no function of the
    module calls it. *)
Definition name_must_contain_space (v : str) : str :=
  if negb (startswith v HTTPS || startswith v HTTP) then HTTPS ++ v else v.
End KasperskyWebsiteEntry.

Module KasperskyApplicationEntry.
Record t : Type := mk
  { application_name : option str;
    login_name : option str;
    login : option str;
    password : option str;
    comment : option str }.

(** The constructor call on a dict unpacked into keyword arguments. *)
Definition of_dict (entry : gmap str str) : result t :=
  if clashes_with_init entry then Raise TypeError_init
  else
    Ok {| application_name := populate_field entry "Application";
          login_name := populate_field entry "Login name";
          login := populate_field entry "Login";
          password := populate_field entry "Password";
          comment := populate_field entry "Comment" |}.

(** [name_must_contain_space], with the source's reading of
    [not a or b] as [(not a) or b]; never called either. *)
Definition name_must_contain_space (v : str) : str :=
  if negb (startswith v HTTPS) || startswith v HTTP then HTTPS ++ v else v.
End KasperskyApplicationEntry.

Module KasperskyNoteEntry.
Record t : Type := mk
  { note_name : option str;
    text : option str }.

(** The constructor call on a dict unpacked into keyword arguments. *)
Definition of_dict (entry : gmap str str) : result t :=
  if clashes_with_init entry then Raise TypeError_init
  else
    Ok {| note_name := populate_field entry "Name";
          text := populate_field entry "Text" |}.
End KasperskyNoteEntry.

Record KasperskyPasswordManagerEntriesSet : Type := mkEntriesSet
  { websites : list KasperskyWebsiteEntry.t;
    applications : list KasperskyApplicationEntry.t;
    notes : list KasperskyNoteEntry.t }.

(** ** Section extraction *)

Definition WEBSITES_IDENTIFIER : str := lit "Websites" ++ [NL; NL].
Definition APPLICATIONS_IDENTIFIER : str :=
  [NL; NL] ++ lit "---" ++ [NL; NL] ++ lit "Applications" ++ [NL; NL].
Definition NOTES_IDENTIFIER : str :=
  [NL; NL] ++ lit "---" ++ [NL; NL] ++ lit "Notes" ++ [NL; NL].
Definition EOF_IDENTIFIER : str := [NL; NL] ++ lit "---" ++ [NL].

(** [extract_websites_from_txt_format] *)
Definition extract_websites_from_txt_format (text_file_content : str) : str :=
  let start_index :=
    find text_file_content WEBSITES_IDENTIFIER + len WEBSITES_IDENTIFIER in
  let end_index := find text_file_content APPLICATIONS_IDENTIFIER in
  strip_nl (slice text_file_content start_index end_index).

(** [extract_applications_from_txt_format] *)
Definition extract_applications_from_txt_format (text_file_content : str) : str :=
  let start_index :=
    find text_file_content APPLICATIONS_IDENTIFIER
    + len APPLICATIONS_IDENTIFIER in
  let end_index := find text_file_content NOTES_IDENTIFIER in
  strip_nl (slice text_file_content start_index end_index).

(** [extract_notes_from_txt_format] *)
Definition extract_notes_from_txt_format (text_file_content : str) : str :=
  let start_index :=
    find text_file_content NOTES_IDENTIFIER + len NOTES_IDENTIFIER in
  let end_index := rfind text_file_content EOF_IDENTIFIER in
  strip_nl (slice text_file_content start_index end_index).

(** [extract_entries_from_txt_format]: the three sections are parsed,
    then the three lists of typed records are built in the order of the
    keyword arguments. *)
Definition extract_entries_from_txt_format (txt_file_content : str)
  : result KasperskyPasswordManagerEntriesSet :=
  bind (parse_entries_section
          (extract_websites_from_txt_format txt_file_content))
    (fun websites_dicts =>
  bind (parse_entries_section
          (extract_applications_from_txt_format txt_file_content))
    (fun applications_dicts =>
  bind (parse_entries_section
          (extract_notes_from_txt_format txt_file_content))
    (fun notes_dicts =>
  bind (comprehension KasperskyWebsiteEntry.of_dict websites_dicts)
    (fun websites_entries =>
  bind (comprehension KasperskyApplicationEntry.of_dict applications_dicts)
    (fun applications_entries =>
  bind (comprehension KasperskyNoteEntry.of_dict notes_dicts)
    (fun notes_entries =>
  Ok {| websites := websites_entries;
        applications := applications_entries;
        notes := notes_entries |})))))).

(** ** numpy arrays and pandas tables, as far as the program uses them

    A cell is [None] or a [str].  [np.array] of the empty list is a
    one-dimensional array of shape (0,).  Of a non-empty list of rows it is
    two-dimensional; when every cell is a [str] its dtype is fixed-width
    Unicode ([<U]n), where a string is stored padded with NUL up to the
    width and read back with the trailing NULs trimmed, padding and content
    alike; as soon as one cell is [None] its dtype is [object] and the
    cells are kept as they are. *)

Abbreviation cell := (option (list N)) (only parsing).

Inductive ndarray : Type :=
| Empty1D
| Unicode2D (rows : list (list str))
| Object2D (rows : list (list cell)).

Definition is_NUL (c : char) : bool := (c =? 0)%N.

Definition is_str (c : cell) : bool :=
  match c with Some _ => true | None => false end.

Definition stored_unicode (c : cell) : str :=
  match c with Some s => rstrip is_NUL s | None => [] end.

Definition np_array (rows : list (list cell)) : ndarray :=
  match rows with
  | [] => Empty1D
  | _ :: _ =>
      if forallb (forallb is_str) rows
      then Unicode2D (List.map (List.map stored_unicode) rows)
      else Object2D rows
  end.

Definition ncols {A : Type} (rows : list (list A)) : nat :=
  match rows with
  | [] => 0
  | r :: _ => length r
  end.

Definition as_object (rows : list (list str)) : list (list cell) :=
  List.map (List.map Some) rows.

(** [np.concatenate((a, b), axis=0)]: the arrays must have the same number
    of dimensions and, when two-dimensional, the same number of columns. *)
Definition np_concatenate (a b : ndarray) : result ndarray :=
  match a, b with
  | Empty1D, Empty1D => Ok Empty1D
  | Empty1D, _ | _, Empty1D => Raise ValueError_concatenate
  | Unicode2D r1, Unicode2D r2 =>
      if (ncols r1 =? ncols r2)%nat then Ok (Unicode2D (r1 ++ r2))
      else Raise ValueError_concatenate
  | Unicode2D r1, Object2D r2 =>
      if (ncols r1 =? ncols r2)%nat then Ok (Object2D (as_object r1 ++ r2))
      else Raise ValueError_concatenate
  | Object2D r1, Unicode2D r2 =>
      if (ncols r1 =? ncols r2)%nat then Ok (Object2D (r1 ++ as_object r2))
      else Raise ValueError_concatenate
  | Object2D r1, Object2D r2 =>
      if (ncols r1 =? ncols r2)%nat then Ok (Object2D (r1 ++ r2))
      else Raise ValueError_concatenate
  end.

Record DataFrame : Type := mkDataFrame
  { columns : list str;
    data : list (list cell) }.

(** [DataFrame()] *)
Definition DataFrame_empty : DataFrame := {| columns := []; data := [] |}.

(** [DataFrame(values, columns=cols)]: a one-dimensional array is taken as
    a single column; the number of columns of the values must be the number
    of column labels. *)
Definition DataFrame_of_ndarray (values : ndarray) (cols : list str)
  : result DataFrame :=
  match values with
  | Empty1D =>
      if (1 =? length cols)%nat then Ok {| columns := cols; data := [] |}
      else Raise ValueError_DataFrame
  | Unicode2D rows =>
      if (ncols rows =? length cols)%nat
      then Ok {| columns := cols; data := as_object rows |}
      else Raise ValueError_DataFrame
  | Object2D rows =>
      if (ncols rows =? length cols)%nat
      then Ok {| columns := cols; data := rows |}
      else Raise ValueError_DataFrame
  end.

(** ** Flattening *)

(** Python's truth value of an [Optional[str]]: [None] and the empty
    string are false. *)
Definition truthy (v : cell) : bool :=
  match v with
  | Some (_ :: _) => true
  | _ => false
  end.

(** The condition and the row of the first comprehension. *)
Definition website_selected (entry : KasperskyWebsiteEntry.t) : bool :=
  truthy (KasperskyWebsiteEntry.website_url entry)
  && truthy (KasperskyWebsiteEntry.website_name entry).

Definition website_row (entry : KasperskyWebsiteEntry.t) : list cell :=
  [KasperskyWebsiteEntry.website_url entry;
   KasperskyWebsiteEntry.login entry;
   KasperskyWebsiteEntry.password entry;
   KasperskyWebsiteEntry.comment entry].

(** The condition and the row of the second comprehension. *)
Definition application_selected (entry : KasperskyApplicationEntry.t) : bool :=
  truthy (KasperskyApplicationEntry.application_name entry).

Definition application_row (entry : KasperskyApplicationEntry.t) : list cell :=
  [KasperskyApplicationEntry.application_name entry;
   KasperskyApplicationEntry.login entry;
   KasperskyApplicationEntry.password entry;
   KasperskyApplicationEntry.comment entry].

Definition GOOGLE_COLUMNS : list str :=
  [lit "url"; lit "username"; lit "password"; lit "note"].

Definition is_empty_list {A : Type} (l : list A) : bool :=
  match l with [] => true | _ :: _ => false end.

(** [create_google_passwords_df_from_entries] *)
Definition create_google_passwords_df_from_entries
    (entries : KasperskyPasswordManagerEntriesSet) : result DataFrame :=
  if is_empty_list (websites entries) && is_empty_list (applications entries)
  then Ok DataFrame_empty
  else
    let websites_entries :=
      np_array
        (List.map website_row
           (List.filter website_selected (websites entries))) in
    let applications_entries :=
      np_array
        (List.map application_row
           (List.filter application_selected (applications entries))) in
    bind (np_concatenate websites_entries applications_entries)
      (fun values => DataFrame_of_ndarray values GOOGLE_COLUMNS).

(** [convert_txt_file_to_google_passwords_compatible_csv], given the text
    that [read_text] returned for the file. *)
Definition convert_txt_file_to_google_passwords_compatible_csv
    (txt_file_content : str) : result DataFrame :=
  bind (extract_entries_from_txt_format txt_file_content)
    (fun entries => create_google_passwords_df_from_entries entries).

(** ** Notions the statements use *)

(** [sub] occurs somewhere in [s]. *)
Definition occurs (sub s : str) : Prop := ∃ a b, s = a ++ sub ++ b.

(** [r] is a contiguous part of [t]. *)
Definition substring (r t : str) : Prop := ∃ pre post, t = pre ++ r ++ post.

(** The cells one reads from an array. *)
Definition cells_of (a : ndarray) : list (list cell) :=
  match a with
  | Empty1D => []
  | Unicode2D rows => as_object rows
  | Object2D rows => rows
  end.

(** The number of columns of an array (0 for the empty one-dimensional
    array). *)
Definition ncols_of (a : ndarray) : nat :=
  match a with
  | Empty1D => 0
  | Unicode2D rows => ncols rows
  | Object2D rows => ncols rows
  end.

(** What a list of rows has become once it has been through [np.array]. *)
Definition stored (rows : list (list cell)) : list (list cell) :=
  cells_of (np_array rows).

(** A string that fixed-width storage leaves alone: it has no trailing
    NUL. *)
Definition nul_free_end (s : str) : Prop := rstrip is_NUL s = s.

(** The rows of the two comprehensions. *)
Definition website_rows (entries : KasperskyPasswordManagerEntriesSet)
  : list (list cell) :=
  List.map website_row (List.filter website_selected (websites entries)).

Definition application_rows (entries : KasperskyPasswordManagerEntriesSet)
  : list (list cell) :=
  List.map application_row
    (List.filter application_selected (applications entries)).

(** The specification's reading of "set": the field is not null. *)
Definition website_set_spec (entry : KasperskyWebsiteEntry.t) : bool :=
  is_str (KasperskyWebsiteEntry.website_url entry)
  && is_str (KasperskyWebsiteEntry.website_name entry).

Definition application_set_spec (entry : KasperskyApplicationEntry.t) : bool :=
  is_str (KasperskyApplicationEntry.application_name entry).

(** The specification's count of record blocks: the pieces between the
    delimiters, a final empty piece left out. *)
Definition record_blocks_spec (section : str) : list str :=
  let blocks := split section RECORD_DELIMITER in
  match last blocks with
  | Some [] => removelast blocks
  | _ => blocks
  end.

(** ** Sample inputs *)

Definition example_block : str :=
  lit "Website name: Example" ++ [NL] ++
  lit "Website URL: example.com" ++ [NL] ++
  lit "Login: bob" ++ [NL] ++
  lit "Password: secret1" ++ [NL] ++
  lit "Comment: work".

(** The example of the specification: one website, no application, no
    note. *)
Definition example_text : str :=
  WEBSITES_IDENTIFIER ++ example_block ++
  APPLICATIONS_IDENTIFIER ++ NOTES_IDENTIFIER ++ EOF_IDENTIFIER.

Definition example_website : KasperskyWebsiteEntry.t :=
  {| KasperskyWebsiteEntry.website_name := Some (lit "Example");
     KasperskyWebsiteEntry.website_url := Some (lit "example.com");
     KasperskyWebsiteEntry.login_name := None;
     KasperskyWebsiteEntry.login := Some (lit "bob");
     KasperskyWebsiteEntry.password := Some (lit "secret1");
     KasperskyWebsiteEntry.comment := Some (lit "work") |}.

Definition example_application : KasperskyApplicationEntry.t :=
  {| KasperskyApplicationEntry.application_name := Some (lit "Mail");
     KasperskyApplicationEntry.login_name := None;
     KasperskyApplicationEntry.login := Some (lit "bob");
     KasperskyApplicationEntry.password := Some (lit "hunter2");
     KasperskyApplicationEntry.comment := None |}.

(** No website, one application. *)
Definition application_only_text : str :=
  WEBSITES_IDENTIFIER ++
  APPLICATIONS_IDENTIFIER ++
  lit "Application: Mail" ++ [NL] ++
  lit "Login: bob" ++ [NL] ++
  lit "Password: hunter2" ++
  NOTES_IDENTIFIER ++ EOF_IDENTIFIER.

(** A Websites section whose last record is closed by a delimiter of its
    own. *)
Definition trailing_delimiter_text : str :=
  WEBSITES_IDENTIFIER ++ example_block ++ [NL] ++ RECORD_DELIMITER ++
  APPLICATIONS_IDENTIFIER ++ NOTES_IDENTIFIER ++ EOF_IDENTIFIER.

(** The three sections empty. *)
Definition empty_sections_text : str :=
  WEBSITES_IDENTIFIER ++ APPLICATIONS_IDENTIFIER ++ NOTES_IDENTIFIER
  ++ EOF_IDENTIFIER.

(** A website whose URL is set to the empty string. *)
Definition blank_url_website : KasperskyWebsiteEntry.t :=
  {| KasperskyWebsiteEntry.website_name := Some (lit "Blank");
     KasperskyWebsiteEntry.website_url := Some [];
     KasperskyWebsiteEntry.login_name := None;
     KasperskyWebsiteEntry.login := Some (lit "carol");
     KasperskyWebsiteEntry.password := Some (lit "t0psecret");
     KasperskyWebsiteEntry.comment := None |}.

Definition blank_url_entries : KasperskyPasswordManagerEntriesSet :=
  {| websites := [blank_url_website; example_website];
     applications := [example_application];
     notes := [] |}.

(** The table made from [blank_url_entries]. *)
Definition blank_url_table : DataFrame :=
  {| columns := GOOGLE_COLUMNS;
     data :=
       [[Some (lit "example.com"); Some (lit "bob");
         Some (lit "secret1"); Some (lit "work")];
        [Some (lit "Mail"); Some (lit "bob");
         Some (lit "hunter2"); None]] |}.

(** A website whose row has four strings and whose URL ends in NUL. *)
Definition nul_url_website : KasperskyWebsiteEntry.t :=
  {| KasperskyWebsiteEntry.website_name := Some (lit "Example");
     KasperskyWebsiteEntry.website_url := Some (lit "example.com" ++ [0%N]);
     KasperskyWebsiteEntry.login_name := None;
     KasperskyWebsiteEntry.login := Some (lit "bob");
     KasperskyWebsiteEntry.password := Some (lit "secret1");
     KasperskyWebsiteEntry.comment := Some (lit "work") |}.

Definition nul_url_text : str :=
  WEBSITES_IDENTIFIER ++
  lit "Website name: Example" ++ [NL] ++
  lit "Website URL: example.com" ++ [0%N; NL] ++
  lit "Login: bob" ++ [NL] ++
  lit "Password: secret1" ++ [NL] ++
  lit "Comment: work" ++
  APPLICATIONS_IDENTIFIER ++
  lit "Application: Mail" ++ [NL] ++
  lit "Login: bob" ++ [NL] ++
  lit "Password: hunter2" ++ [NL] ++
  lit "Comment: home" ++
  NOTES_IDENTIFIER ++ EOF_IDENTIFIER.

(** ** The command line

    [main] is modelled up to the file system: what [Path(p).name],
    [Path(p).exists()] and [Path(p).read_text()] give for a path string is
    taken from three functions, [read_text] giving [None] where the call
    raises.  The outcome is the failed assertion, the uncaught exception or
    the call [passwords_df.to_csv(new_csv_file_name, index=False)] that is
    reached.  Assertions are enabled, as they are by default. *)

(** [s.endswith(suffix)] *)
Definition endswith (s suffix : str) : bool :=
  (length suffix <=? length s)%nat
  && startswith (drop (length s - length suffix) s) suffix.

(** [s.removesuffix(suffix)] *)
Definition removesuffix (s suffix : str) : str :=
  if endswith s suffix then take (length s - length suffix) s else s.

Definition TXT : str := lit ".txt".
Definition CSV : str := lit ".csv".

Inductive main_outcome : Type :=
| AssertionError_usage        (* len(arguments) == 2 *)
| AssertionError_suffix       (* the name ends with ".txt" *)
| AssertionError_missing      (* the file exists *)
| ReadError                   (* read_text raises *)
| Uncaught (e : exn)          (* the conversion raises *)
| Written (new_csv_file_name : str) (passwords_df : DataFrame).

Section FileSystem.
Variable path_name : str -> str.
Variable path_exists : str -> bool.
Variable read_text : str -> option str.

(** [main] *)
Definition main (arguments : list str) : main_outcome :=
  match arguments with
  | [_; argument] =>
      let name := path_name argument in
      if negb (endswith name TXT) then AssertionError_suffix
      else
        let new_csv_file_name := removesuffix name TXT ++ CSV in
        if negb (path_exists argument) then AssertionError_missing
        else
          match read_text argument with
          | None => ReadError
          | Some txt_file_content =>
              match convert_txt_file_to_google_passwords_compatible_csv
                      txt_file_content with
              | Ok passwords_df => Written new_csv_file_name passwords_df
              | Raise e => Uncaught e
              end
          end
  | _ => AssertionError_usage
  end.
End FileSystem.

(** ** Further notions the statements use *)

(** No occurrence of [marker] begins inside [body] when [marker] follows
    it. *)
Definition no_earlier (marker body : str) : Prop :=
  ¬ occurs marker (body ++ removelast marker).

(** No occurrence of [marker] begins after the one that [rest] follows. *)
Definition no_later (marker rest : str) : Prop :=
  ¬ occurs marker (tail marker ++ rest).

(** [c] is none of the characters of [s]. *)
Definition free_of (p : char -> bool) (s : str) : Prop :=
  forallb (fun c => negb (p c)) s = true.

(** The line [key: value]. *)
Definition format_line (pair : str * str) : str :=
  pair.1 ++ COLON_SPACE ++ pair.2.

(** ["\n".join(lines)] *)
Fixpoint join_lines (lines : list str) : str :=
  match lines with
  | [] => []
  | [l] => l
  | l :: ls => l ++ NL :: join_lines ls
  end.

(** A key and a value that a line of a record block can carry: neither
    has a line boundary in it and the key has no [": "]. *)
Definition clean_pair (pair : str * str) : Prop :=
  free_of is_linebreak pair.1 ∧ free_of is_linebreak pair.2
  ∧ ¬ occurs COLON_SPACE pair.1.

(** Every string of the rows is one that fixed-width storage leaves
    alone. *)
Definition rows_nul_free (rows : list (list cell)) : Prop :=
  Forall (Forall (fun c : cell =>
                    match c with Some s => nul_free_end s | None => True end))
    rows.

(** A row of four cells whose first cell is a string. *)
Definition row_shape (row : list cell) : Prop :=
  length row = 4%nat ∧ ∃ s, row !! 0%nat = Some (Some s).

(** The lines of a record block that carry the fields of a website
    entry: one pair per field that is set, under the alias of the
    field. *)
Definition website_pairs (entry : KasperskyWebsiteEntry.t)
  : list (str * str) :=
  omap (λ field : string * option str,
          match field.2 with
          | Some v => Some (lit field.1, v)
          | None => None
          end)
    [("Website name"%string, KasperskyWebsiteEntry.website_name entry);
     ("Website URL"%string, KasperskyWebsiteEntry.website_url entry);
     ("Login name"%string, KasperskyWebsiteEntry.login_name entry);
     ("Login"%string, KasperskyWebsiteEntry.login entry);
     ("Password"%string, KasperskyWebsiteEntry.password entry);
     ("Comment"%string, KasperskyWebsiteEntry.comment entry)].

(** The same for an application entry. *)
Definition application_pairs (entry : KasperskyApplicationEntry.t)
  : list (str * str) :=
  omap (λ field : string * option str,
          match field.2 with
          | Some v => Some (lit field.1, v)
          | None => None
          end)
    [("Application"%string, KasperskyApplicationEntry.application_name entry);
     ("Login name"%string, KasperskyApplicationEntry.login_name entry);
     ("Login"%string, KasperskyApplicationEntry.login entry);
     ("Password"%string, KasperskyApplicationEntry.password entry);
     ("Comment"%string, KasperskyApplicationEntry.comment entry)].

Definition website_block (entry : KasperskyWebsiteEntry.t) : str :=
  join_lines (List.map format_line (website_pairs entry)).

Definition application_block (entry : KasperskyApplicationEntry.t) : str :=
  join_lines (List.map format_line (application_pairs entry)).

(** An export with one website, one application and a Notes section. *)
Definition export_text (website : KasperskyWebsiteEntry.t)
    (application : KasperskyApplicationEntry.t) (notes_body : str) : str :=
  WEBSITES_IDENTIFIER ++ website_block website ++
  APPLICATIONS_IDENTIFIER ++ application_block application ++
  NOTES_IDENTIFIER ++ notes_body ++ EOF_IDENTIFIER.

(** A text that differs from [nul_url_text] in its Notes section only. *)
Definition nul_url_text_with_note : str :=
  WEBSITES_IDENTIFIER ++
  lit "Website name: Example" ++ [NL] ++
  lit "Website URL: example.com" ++ [0%N; NL] ++
  lit "Login: bob" ++ [NL] ++
  lit "Password: secret1" ++ [NL] ++
  lit "Comment: work" ++
  APPLICATIONS_IDENTIFIER ++
  lit "Application: Mail" ++ [NL] ++
  lit "Login: bob" ++ [NL] ++
  lit "Password: hunter2" ++ [NL] ++
  lit "Comment: home" ++
  NOTES_IDENTIFIER ++
  lit "Name: wifi" ++ [NL] ++ lit "Text: 1234" ++
  EOF_IDENTIFIER.

(** The table made from [nul_url_text]. *)
Definition nul_url_table : DataFrame :=
  {| columns := GOOGLE_COLUMNS;
     data :=
       [[Some (lit "example.com"); Some (lit "bob");
         Some (lit "secret1"); Some (lit "work")];
        [Some (lit "Mail"); Some (lit "bob");
         Some (lit "hunter2"); Some (lit "home")]] |}.

(** ** Facts about the string operations *)

Lemma startswith_true (s p : str) :
  startswith s p = true ↔ ∃ r, s = p ++ r.
Proof.
  revert s. induction p as [|a p IH]; intros s; simpl.
  - split; [intros _; by exists s | done].
  - destruct s as [|b s].
    + split; [discriminate | intros [r H]; discriminate].
    + rewrite andb_true_iff, N.eqb_eq, IH. split.
      * intros [-> [r ->]]. eauto.
      * intros [r H]. injection H as -> ->. eauto.
Qed.

Lemma occurs_nil_inv (sub : str) : occurs sub [] → sub = [].
Proof.
  intros (a & b & H). symmetry in H.
  apply app_eq_nil in H as [_ H]. by apply app_eq_nil in H as [H _].
Qed.

Lemma occurs_cons_inv (sub : str) (c : char) (s : str) :
  occurs sub (c :: s) → startswith (c :: s) sub = true ∨ occurs sub s.
Proof.
  intros (a & b & H). destruct a as [|c' a]; simpl in H.
  - left. apply startswith_true. eauto.
  - right. injection H as _ ->. by exists a, b.
Qed.

Lemma find_nat_None (s sub : str) :
  find_nat s sub = None → ¬ occurs sub s.
Proof.
  induction s as [|c s IH]; simpl.
  - destruct (startswith [] sub) eqn:E; [discriminate|].
    intros _ H%occurs_nil_inv. subst. discriminate.
  - destruct (startswith (c :: s) sub) eqn:E; [discriminate|].
    destruct (find_nat s sub); [discriminate|].
    intros _ [H|H]%occurs_cons_inv; [congruence | by apply IH].
Qed.

Lemma find_nat_Some (s sub : str) (i : nat) :
  sub ≠ [] →
  find_nat s sub = Some i →
  s = take i s ++ sub ++ drop (i + length sub) s ∧ ¬ occurs sub (take i s).
Proof.
  intros Hsub. revert i. induction s as [|c s IH]; intros i; simpl.
  - destruct sub; [congruence | discriminate].
  - destruct (startswith (c :: s) sub) eqn:E.
    + intros [= <-]. apply startswith_true in E as [r E]. split.
      * simpl. rewrite E at 1. f_equal. rewrite E.
        by rewrite drop_app_length.
      * by intros ?%occurs_nil_inv.
    + destruct (find_nat s sub) as [j|] eqn:F; [|discriminate].
      intros [= <-]. destruct (IH j eq_refl) as [H1 H2]. split.
      * simpl. by f_equal.
      * simpl. intros [H|H]%occurs_cons_inv; [|done].
        apply startswith_true in H as [r H].
        assert (startswith (c :: s) sub = true); [|congruence].
        apply startswith_true. exists (r ++ sub ++ drop (j + length sub) s).
        rewrite H1 at 1. rewrite app_comm_cons, H. by rewrite <- app_assoc.
Qed.

Lemma substring_refl (s : str) : substring s s.
Proof. exists [], []. by rewrite app_nil_r. Qed.

Lemma substring_trans (r s t : str) :
  substring r s → substring s t → substring r t.
Proof.
  intros (a & b & ->) (c & d & ->). exists (c ++ a), (b ++ d).
  by rewrite <- !app_assoc.
Qed.

Lemma take_substring (n : nat) (s : str) : substring (take n s) s.
Proof. exists [], (drop n s). simpl. by rewrite take_drop. Qed.

Lemma drop_substring (n : nat) (s : str) : substring (drop n s) s.
Proof. exists (take n s), []. by rewrite app_nil_r, take_drop. Qed.

Lemma slice_substring (s : str) (i j : Z) : substring (slice s i j) s.
Proof.
  unfold slice. eapply substring_trans; [apply take_substring|].
  apply drop_substring.
Qed.

Lemma lstrip_substring (p : char → bool) (s : str) : substring (lstrip p s) s.
Proof.
  induction s as [|c s IH]; simpl; [apply substring_refl|].
  destruct (p c); [|apply substring_refl].
  apply (substring_trans _ s); [apply IH|].
  exists [c], []. by rewrite app_nil_r.
Qed.

Lemma rstrip_prefix (p : char → bool) (s : str) :
  ∃ post, s = rstrip p s ++ post.
Proof.
  induction s as [|c s [post IH]]; simpl; [by exists []|].
  destruct (rstrip p s) as [|d r] eqn:E.
  - destruct (p c); [by exists (c :: s)|]. exists s. done.
  - exists post. simpl. by rewrite IH at 1.
Qed.

Lemma rstrip_substring (p : char → bool) (s : str) : substring (rstrip p s) s.
Proof. destruct (rstrip_prefix p s) as [post H]. by exists [], post. Qed.

Lemma strip_substring (p : char → bool) (s : str) : substring (strip p s) s.
Proof.
  unfold strip. eapply substring_trans; [apply rstrip_substring|].
  apply lstrip_substring.
Qed.

Lemma split_go_length (sep : str) (skip : nat) (s : str) :
  length (split_go sep skip s).2 = count_go sep skip s.
Proof.
  revert skip. induction s as [|c s IH]; intros skip; simpl; [done|].
  destruct skip as [|k]; [|apply IH].
  destruct (startswith (c :: s) sep).
  - specialize (IH (length sep - 1)%nat).
    destruct (split_go sep (length sep - 1) s). simpl in *. by rewrite IH.
  - specialize (IH 0%nat). by destruct (split_go sep 0 s).
Qed.

Lemma length_split (s sep : str) : length (split s sep) = S (count s sep).
Proof.
  unfold split, count. rewrite <- split_go_length.
  by destruct (split_go sep 0 s).
Qed.

(** ** Facts about the arrays *)

Lemma ncols_map {A B : Type} (f : A → B) (rows : list (list A)) :
  ncols (List.map (List.map f) rows) = ncols rows.
Proof. destruct rows; simpl; [done | apply length_map]. Qed.

Lemma ncols_app {A : Type} (r1 r2 : list (list A)) :
  ncols r1 = ncols r2 → ncols (r1 ++ r2) = ncols r1.
Proof. by destruct r1. Qed.

Lemma np_array_2D (rows : list (list cell)) :
  rows ≠ [] →
  np_array rows ≠ Empty1D ∧ ncols_of (np_array rows) = ncols rows.
Proof.
  destruct rows as [|r rows]; [done|]. intros _. unfold np_array.
  destruct (forallb _ _); split; try done.
  simpl. apply length_map.
Qed.

Lemma stored_cases (rows : list (list cell)) :
  stored rows = rows
  ∨ (forallb (forallb is_str) rows = true
     ∧ stored rows
       = List.map (List.map (λ c, Some (stored_unicode c))) rows).
Proof.
  destruct rows as [|r rows]; [by left|]. unfold stored, np_array.
  destruct (forallb _ _) eqn:E; [right | by left].
  split; [done|]. unfold cells_of, as_object.
  rewrite List.map_map. apply List.map_ext. intros row.
  by rewrite List.map_map.
Qed.

Lemma length_stored (rows : list (list cell)) :
  length (stored rows) = length rows.
Proof.
  destruct (stored_cases rows) as [-> | [_ ->]]; [done | apply length_map].
Qed.

Lemma np_concatenate_2D (a b : ndarray) :
  a ≠ Empty1D → b ≠ Empty1D → ncols_of a = ncols_of b →
  ∃ c, np_concatenate a b = Ok c
       ∧ c ≠ Empty1D
       ∧ ncols_of c = ncols_of a
       ∧ cells_of c = cells_of a ++ cells_of b.
Proof.
  intros Ha Hb Hn.
  destruct a as [|r1|r1], b as [|r2|r2]; try done; simpl in *;
    apply Nat.eqb_eq in Hn as Hn'; rewrite Hn'; eexists;
    (split; [reflexivity|]); (split; [done|]); split.
  - by apply ncols_app.
  - simpl. unfold as_object. by rewrite List.map_app.
  - simpl. unfold as_object.
    rewrite ncols_app; rewrite ncols_map; done.
  - done.
  - simpl. apply ncols_app. unfold as_object. by rewrite ncols_map.
  - done.
  - by apply ncols_app.
  - done.
Qed.

Lemma DataFrame_of_2D (a : ndarray) :
  a ≠ Empty1D → ncols_of a = 4%nat →
  DataFrame_of_ndarray a GOOGLE_COLUMNS
  = Ok {| columns := GOOGLE_COLUMNS; data := cells_of a |}.
Proof.
  intros Ha Hn. destruct a as [|r|r]; try done; simpl in *; by rewrite Hn.
Qed.

Lemma ncols_website_rows (entries : KasperskyPasswordManagerEntriesSet) :
  website_rows entries ≠ [] → ncols (website_rows entries) = 4%nat.
Proof. unfold website_rows. by destruct (List.filter _ _). Qed.

Lemma ncols_application_rows (entries : KasperskyPasswordManagerEntriesSet) :
  application_rows entries ≠ [] → ncols (application_rows entries) = 4%nat.
Proof. unfold application_rows. by destruct (List.filter _ _). Qed.

(** ** What the flattening does, case by case *)

Lemma create_unfold (entries : KasperskyPasswordManagerEntriesSet) :
  create_google_passwords_df_from_entries entries
  = if is_empty_list (websites entries)
       && is_empty_list (applications entries)
    then Ok DataFrame_empty
    else bind (np_concatenate (np_array (website_rows entries))
                 (np_array (application_rows entries)))
           (λ values, DataFrame_of_ndarray values GOOGLE_COLUMNS).
Proof. reflexivity. Qed.

Lemma rows_nonempty_guard (entries : KasperskyPasswordManagerEntriesSet) :
  website_rows entries ≠ [] ∨ application_rows entries ≠ [] →
  is_empty_list (websites entries) && is_empty_list (applications entries)
  = false.
Proof.
  unfold website_rows, application_rows.
  destruct (websites entries), (applications entries); simpl; tauto.
Qed.

(** Both groups have a selected entry: the table holds the website rows,
    then the application rows. *)
Lemma create_both_groups (entries : KasperskyPasswordManagerEntriesSet) :
  website_rows entries ≠ [] → application_rows entries ≠ [] →
  create_google_passwords_df_from_entries entries
  = Ok {| columns := GOOGLE_COLUMNS;
          data := stored (website_rows entries)
                  ++ stored (application_rows entries) |}.
Proof.
  intros Hw Ha. rewrite create_unfold, rows_nonempty_guard by tauto.
  destruct (np_array_2D _ Hw) as [Hw1 Hw2].
  destruct (np_array_2D _ Ha) as [Ha1 Ha2].
  rewrite ncols_website_rows in Hw2 by done.
  rewrite ncols_application_rows in Ha2 by done.
  destruct (np_concatenate_2D _ _ Hw1 Ha1) as (c & -> & Hc1 & Hc2 & Hc3);
    [congruence|].
  simpl. rewrite DataFrame_of_2D by congruence. by rewrite Hc3.
Qed.

(** Exactly one group has a selected entry: [np.concatenate] raises. *)
Lemma create_one_group (entries : KasperskyPasswordManagerEntriesSet) :
  (website_rows entries ≠ [] ∧ application_rows entries = [])
  ∨ (website_rows entries = [] ∧ application_rows entries ≠ []) →
  create_google_passwords_df_from_entries entries
  = Raise ValueError_concatenate.
Proof.
  intros H. rewrite create_unfold, rows_nonempty_guard by tauto.
  destruct H as [[H1 ->] | [-> H1]];
    destruct (np_array_2D _ H1) as [H2 _]; simpl;
    by destruct (np_array _).
Qed.

(** There are entries, none of them selected: [DataFrame] raises. *)
Lemma create_none_selected (entries : KasperskyPasswordManagerEntriesSet) :
  is_empty_list (websites entries) && is_empty_list (applications entries)
  = false →
  website_rows entries = [] → application_rows entries = [] →
  create_google_passwords_df_from_entries entries
  = Raise ValueError_DataFrame.
Proof. intros H Hw Ha. by rewrite create_unfold, H, Hw, Ha. Qed.

(** The two ways in which a table is returned. *)
Lemma create_Ok_inv (entries : KasperskyPasswordManagerEntriesSet)
    (table : DataFrame) :
  create_google_passwords_df_from_entries entries = Ok table →
  (websites entries = [] ∧ applications entries = []
   ∧ table = DataFrame_empty)
  ∨ (website_rows entries ≠ [] ∧ application_rows entries ≠ []
     ∧ table = {| columns := GOOGLE_COLUMNS;
                  data := stored (website_rows entries)
                          ++ stored (application_rows entries) |}).
Proof.
  intros H.
  destruct (is_empty_list (websites entries)
            && is_empty_list (applications entries)) eqn:G.
  - left. rewrite create_unfold, G in H. injection H as <-.
    apply andb_true_iff in G as [G1 G2].
    by destruct (websites entries), (applications entries).
  - right.
    destruct (decide (website_rows entries = [])) as [Hw|Hw],
             (decide (application_rows entries = [])) as [Ha|Ha].
    + rewrite create_none_selected in H by done. discriminate.
    + rewrite create_one_group in H by tauto. discriminate.
    + rewrite create_one_group in H by tauto. discriminate.
    + rewrite create_both_groups in H by done. by injection H as <-.
Qed.

(** ** Parsing never raises *)

Lemma COLON_SPACE_nonempty : COLON_SPACE ≠ [].
Proof. discriminate. Qed.

Lemma find_nat_le (s sub : str) (i : nat) :
  find_nat s sub = Some i → (i ≤ length s)%nat.
Proof.
  revert i. induction s as [|c s IH]; intros i; simpl.
  - destruct (startswith [] sub); [|done]. intros [= <-]. lia.
  - destruct (startswith (c :: s) sub); [intros [= <-]; lia|].
    destruct (find_nat s sub) as [j|]; [|done].
    intros [= <-]. specialize (IH j eq_refl). lia.
Qed.

Lemma key_value_from_line_cases (line : str) :
  (¬ occurs COLON_SPACE line
   ∧ find line COLON_SPACE = -1
   ∧ key_value_from_line line = Ok (line, []))
  ∨ (∃ key value,
       line = key ++ COLON_SPACE ++ value
       ∧ ¬ occurs COLON_SPACE key
       ∧ find line COLON_SPACE = len key
       ∧ key_value_from_line line = Ok (key, value)).
Proof.
  unfold key_value_from_line, split_maxsplit1, find.
  destruct (find_nat line COLON_SPACE) as [i|] eqn:F.
  - right. pose proof (find_nat_le _ _ _ F) as Hle.
    apply find_nat_Some in F as [H1 H2]; [|apply COLON_SPACE_nonempty].
    exists (take i line), (drop (i + length COLON_SPACE) line).
    repeat split; try done.
    unfold len. by rewrite length_take_le.
  - left. repeat split; try done. by apply find_nat_None.
Qed.

Lemma key_value_from_line_Ok (line : str) :
  ∃ pair, key_value_from_line line = Ok pair.
Proof.
  destruct (key_value_from_line_cases line)
    as [(_ & _ & H) | (k & v & _ & _ & _ & H)]; eauto.
Qed.

Lemma comprehension_Ok {A B : Type} (f : A → result B) (l : list A) :
  (∀ x, ∃ y, f x = Ok y) →
  ∃ ys, comprehension f l = Ok ys ∧ length ys = length l.
Proof.
  intros Hf. induction l as [|x l (ys & IH & Hlen)]; simpl.
  - by exists [].
  - destruct (Hf x) as [y ->]. rewrite IH. simpl.
    exists (y :: ys). simpl. by rewrite Hlen.
Qed.

Lemma parse_colon_separated_key_value_pairs_Ok (entry : str) :
  ∃ d, parse_colon_separated_key_value_pairs entry = Ok d.
Proof.
  unfold parse_colon_separated_key_value_pairs.
  destruct (comprehension_Ok key_value_from_line
              (splitlines (strip_nl entry)) key_value_from_line_Ok)
    as (pairs & -> & _).
  simpl. eauto.
Qed.

Lemma parse_entries_section_Ok (txt : str) :
  ∃ dicts, parse_entries_section txt = Ok dicts
           ∧ length dicts = S (count txt RECORD_DELIMITER).
Proof.
  unfold parse_entries_section.
  destruct (comprehension_Ok parse_colon_separated_key_value_pairs
              (split txt RECORD_DELIMITER)
              parse_colon_separated_key_value_pairs_Ok)
    as (dicts & -> & Hlen).
  exists dicts. by rewrite Hlen, length_split.
Qed.

Lemma comprehension_length {A B : Type} (f : A → result B) (l : list A)
    (ys : list B) :
  comprehension f l = Ok ys → length ys = length l.
Proof.
  revert ys. induction l as [|x l IH]; intros ys; simpl.
  - by intros [= <-].
  - destruct (f x); [|done]. simpl.
    destruct (comprehension f l) as [ys'|]; [|done]. simpl.
    intros [= <-]. simpl. by rewrite (IH ys').
Qed.

(** What a returned entries set is made of. *)
Lemma extract_entries_from_txt_format_inv (txt : str)
    (entries : KasperskyPasswordManagerEntriesSet) :
  extract_entries_from_txt_format txt = Ok entries →
  ∃ ws aps ns,
    parse_entries_section (extract_websites_from_txt_format txt) = Ok ws
    ∧ parse_entries_section (extract_applications_from_txt_format txt)
      = Ok aps
    ∧ parse_entries_section (extract_notes_from_txt_format txt) = Ok ns
    ∧ comprehension KasperskyWebsiteEntry.of_dict ws
      = Ok (websites entries)
    ∧ comprehension KasperskyApplicationEntry.of_dict aps
      = Ok (applications entries)
    ∧ comprehension KasperskyNoteEntry.of_dict ns = Ok (notes entries).
Proof.
  unfold extract_entries_from_txt_format.
  destruct (parse_entries_section (extract_websites_from_txt_format txt))
    as [ws|]; [|done].
  destruct (parse_entries_section
              (extract_applications_from_txt_format txt))
    as [aps|]; [|done].
  destruct (parse_entries_section (extract_notes_from_txt_format txt))
    as [ns|]; [|done].
  cbn [bind].
  destruct (comprehension KasperskyWebsiteEntry.of_dict ws) as [w|] eqn:Ew;
    [|done].
  destruct (comprehension KasperskyApplicationEntry.of_dict aps)
    as [a|] eqn:Ea; [|done].
  destruct (comprehension KasperskyNoteEntry.of_dict ns) as [n|] eqn:En;
    [|done].
  cbn [bind]. intros [= <-]. by exists ws, aps, ns.
Qed.

Lemma extract_entries_from_txt_format_lengths (txt : str)
    (entries : KasperskyPasswordManagerEntriesSet) :
  extract_entries_from_txt_format txt = Ok entries →
  length (websites entries)
  = S (count (extract_websites_from_txt_format txt) RECORD_DELIMITER)
  ∧ length (applications entries)
    = S (count (extract_applications_from_txt_format txt) RECORD_DELIMITER)
  ∧ length (notes entries)
    = S (count (extract_notes_from_txt_format txt) RECORD_DELIMITER).
Proof.
  intros (ws & aps & ns & Hw & Ha & Hn & Ew & Ea & En)
    %extract_entries_from_txt_format_inv.
  apply comprehension_length in Ew, Ea, En.
  destruct (parse_entries_section_Ok (extract_websites_from_txt_format txt))
    as (ws' & Hw' & Lw).
  destruct (parse_entries_section_Ok
              (extract_applications_from_txt_format txt))
    as (aps' & Ha' & La).
  destruct (parse_entries_section_Ok (extract_notes_from_txt_format txt))
    as (ns' & Hn' & Ln).
  rewrite Hw in Hw'. rewrite Ha in Ha'. rewrite Hn in Hn'.
  injection Hw' as <-. injection Ha' as <-. injection Hn' as <-.
  rewrite Ew, Ea, En. done.
Qed.

(** ** The claims *)

(** C9.  For every line, [key_value_from_line] returns and does not raise.
    A line in which [": "] does not occur ([find] gives [-1]) yields the
    whole line as the key and the empty string as the value.  Any other
    line is cut at the first occurrence of [": "], the index that [find]
    gives: the key is the part before it and has no [": "] in it, the
    value is all that follows, further occurrences of [": "] included. *)
Theorem key_value_from_line_first_separator (line : str) :
  (¬ occurs COLON_SPACE line
   ∧ find line COLON_SPACE = -1
   ∧ key_value_from_line line = Ok (line, []))
  ∨ (∃ key value,
       line = key ++ COLON_SPACE ++ value
       ∧ ¬ occurs COLON_SPACE key
       ∧ find line COLON_SPACE = len key
       ∧ key_value_from_line line = Ok (key, value)).
Proof. apply key_value_from_line_cases. Qed.

Example key_value_from_line_value_with_separator :
  key_value_from_line (lit "Comment: see: below")
  = Ok (lit "Comment", lit "see: below").
Proof. reflexivity. Qed.

Example key_value_from_line_blank :
  key_value_from_line [] = Ok ([], []).
Proof. reflexivity. Qed.

(** C6.  On every input text each of the three section extractors returns
    a contiguous part of the text; an absent marker makes [find] return
    [-1] and the slice bounds are computed from it all the same, as on the
    text [no markers here at all], where the bounds are [9] and [-1]. *)
Theorem extract_sections_total (text_file_content : str) :
  substring (extract_websites_from_txt_format text_file_content)
    text_file_content
  ∧ substring (extract_applications_from_txt_format text_file_content)
      text_file_content
  ∧ substring (extract_notes_from_txt_format text_file_content)
      text_file_content
  ∧ extract_websites_from_txt_format (lit "no markers here at all")
    = slice (lit "no markers here at all") (-1 + 10) (-1).
Proof.
  repeat split.
  - unfold extract_websites_from_txt_format, strip_nl.
    eapply substring_trans; [apply strip_substring | apply slice_substring].
  - unfold extract_applications_from_txt_format, strip_nl.
    eapply substring_trans; [apply strip_substring | apply slice_substring].
  - unfold extract_notes_from_txt_format, strip_nl.
    eapply substring_trans; [apply strip_substring | apply slice_substring].
Qed.

Example extract_websites_without_markers :
  extract_websites_from_txt_format (lit "no markers here at all")
  = lit "s here at al".
Proof. reflexivity. Qed.

Example extract_notes_without_markers :
  extract_notes_from_txt_format (lit "no markers here at all")
  = lit "re at al".
Proof. reflexivity. Qed.

(** C5, as the code has it.  For every input text on which the
    extraction returns an entries set, each of the three sequences has as
    many entries as the split of its section on ["---"] has pieces, that
    is one more than there are delimiters in the section; no piece is left
    out, an empty last one after a trailing delimiter is counted like the
    others. *)
Theorem entries_count_is_delimiters_plus_one (txt_file_content : str)
    (entries : KasperskyPasswordManagerEntriesSet) :
  extract_entries_from_txt_format txt_file_content = Ok entries →
  length (websites entries)
  = S (count (extract_websites_from_txt_format txt_file_content)
         RECORD_DELIMITER)
  ∧ length (applications entries)
    = S (count (extract_applications_from_txt_format txt_file_content)
           RECORD_DELIMITER)
  ∧ length (notes entries)
    = S (count (extract_notes_from_txt_format txt_file_content)
           RECORD_DELIMITER).
Proof. apply extract_entries_from_txt_format_lengths. Qed.

Lemma entries_count_is_delimiters_plus_one_witness :
  length
    [example_website;
     KasperskyWebsiteEntry.mk None None None None None None]
  = S (count (extract_websites_from_txt_format trailing_delimiter_text)
         RECORD_DELIMITER)
  ∧ length [KasperskyApplicationEntry.mk None None None None None]
    = S (count (extract_applications_from_txt_format trailing_delimiter_text)
           RECORD_DELIMITER)
  ∧ length [KasperskyNoteEntry.mk None None]
    = S (count (extract_notes_from_txt_format trailing_delimiter_text)
           RECORD_DELIMITER).
Proof.
  apply (entries_count_is_delimiters_plus_one trailing_delimiter_text
           {| websites :=
                [example_website;
                 KasperskyWebsiteEntry.mk None None None None None None];
              applications :=
                [KasperskyApplicationEntry.mk None None None None None];
              notes := [KasperskyNoteEntry.mk None None] |}).
  vm_compute. reflexivity.
Defined.

(** C5, as stated, fails: the Websites section of
    [trailing_delimiter_text] is one record followed by a delimiter; the
    count that leaves the empty last block out is 1, the sequence has 2
    entries. *)
Lemma trailing_empty_block_is_counted :
  ¬ (∀ txt entries,
       extract_entries_from_txt_format txt = Ok entries →
       length (websites entries)
       = length (record_blocks_spec (extract_websites_from_txt_format txt))
       ∧ length (applications entries)
         = length (record_blocks_spec
                     (extract_applications_from_txt_format txt))
       ∧ length (notes entries)
         = length (record_blocks_spec (extract_notes_from_txt_format txt))).
Proof.
  intros H.
  destruct (extract_entries_from_txt_format trailing_delimiter_text)
    as [entries|e] eqn:E; [|by vm_compute in E].
  destruct (H _ _ E) as [Hw _].
  vm_compute in E. injection E as <-. vm_compute in Hw. discriminate.
Qed.

(** C10, as the code has it.  [parse_entries_section] returns at least one
    RawEntry on every section; on the empty section it returns exactly
    one, the empty mapping (the empty string has no lines, so no pair is
    entered); the typed records built from the empty mapping have all
    their fields null; and every sequence of every entries set that the
    extraction returns has length at least one. *)
Theorem parse_entries_section_nonempty :
  (∀ section, ∃ dicts,
     parse_entries_section section = Ok dicts ∧ (1 ≤ length dicts)%nat)
  ∧ parse_entries_section [] = Ok [∅]
  ∧ KasperskyWebsiteEntry.of_dict ∅
    = Ok (KasperskyWebsiteEntry.mk None None None None None None)
  ∧ KasperskyApplicationEntry.of_dict ∅
    = Ok (KasperskyApplicationEntry.mk None None None None None)
  ∧ KasperskyNoteEntry.of_dict ∅ = Ok (KasperskyNoteEntry.mk None None)
  ∧ (∀ txt entries,
       extract_entries_from_txt_format txt = Ok entries →
       (1 ≤ length (websites entries))%nat
       ∧ (1 ≤ length (applications entries))%nat
       ∧ (1 ≤ length (notes entries))%nat).
Proof.
  split; [|split; [|split; [|split; [|split]]]]; try reflexivity.
  - intros section.
    destruct (parse_entries_section_Ok section) as (dicts & H & Hlen).
    exists dicts. split; [done | lia].
  - intros txt entries H.
    apply extract_entries_from_txt_format_lengths in H as (Hw & Ha & Hn).
    lia.
Qed.

Lemma parse_entries_section_nonempty_witness :
  (1 ≤ length [example_website])%nat
  ∧ (1 ≤ length [KasperskyApplicationEntry.mk None None None None None])%nat
  ∧ (1 ≤ length [KasperskyNoteEntry.mk None None])%nat.
Proof.
  apply (proj2 (proj2 (proj2 (proj2 (proj2 parse_entries_section_nonempty))))
           example_text
           {| websites := [example_website];
              applications :=
                [KasperskyApplicationEntry.mk None None None None None];
              notes := [KasperskyNoteEntry.mk None None] |}).
  vm_compute. reflexivity.
Defined.

(** C10, as stated, fails: the RawEntry of the empty section is not the
    mapping that sends the empty key to the empty value. *)
Lemma empty_section_has_no_pair :
  parse_entries_section [] ≠ Ok [{[ [] := [] ]}].
Proof.
  change (parse_entries_section []) with (Ok [∅ : gmap str str]).
  intros H.
  apply (f_equal (λ r : result (list (gmap str str)),
                    match r with Ok [d] => d !! [] | _ => None end)) in H.
  by rewrite lookup_empty, lookup_singleton_eq in H.
Qed.

(** A blank line inside a block does enter the pair of the empty key and
    the empty value. *)
Example blank_line_in_block :
  parse_colon_separated_key_value_pairs (lit "Login: bob" ++ [NL; NL] ++ lit "Password: x")
  = Ok (<[lit "Password" := lit "x"]>
          (<[[] := []]> (<[lit "Login" := lit "bob"]> ∅))).
Proof. reflexivity. Qed.

(** C1.  The example of the specification.  The extraction gives the one
    website of the example, and one application and one note with all
    fields null; no application is selected, the array of application
    rows is one-dimensional, and [np.concatenate] raises: no table is
    returned. *)
Theorem example_pipeline_raises :
  extract_entries_from_txt_format example_text
  = Ok {| websites := [example_website];
          applications :=
            [KasperskyApplicationEntry.mk None None None None None];
          notes := [KasperskyNoteEntry.mk None None] |}
  ∧ convert_txt_file_to_google_passwords_compatible_csv example_text
    = Raise ValueError_concatenate.
Proof. split; vm_compute; reflexivity. Qed.

(** C2.  A text with the four markers in order, no website and one
    application: one entry is selected, and the pipeline raises instead of
    returning a table of one row. *)
Theorem application_only_pipeline_raises :
  (find application_only_text WEBSITES_IDENTIFIER
   < find application_only_text APPLICATIONS_IDENTIFIER
   < find application_only_text NOTES_IDENTIFIER)
  ∧ find application_only_text NOTES_IDENTIFIER
    < rfind application_only_text EOF_IDENTIFIER
  ∧ (∃ entries,
       extract_entries_from_txt_format application_only_text = Ok entries
       ∧ length (List.filter website_selected (websites entries)) = 0%nat
       ∧ length (List.filter application_selected (applications entries))
         = 1%nat)
  ∧ convert_txt_file_to_google_passwords_compatible_csv application_only_text
    = Raise ValueError_concatenate.
Proof.
  split; [|split; [|split]]; try (vm_compute; done).
  eexists. split; [vm_compute; reflexivity|]. by vm_compute.
Qed.

(** C3.  A text whose three sections are empty.  The extraction gives
    one website and one application with all fields null, so the filtered
    website list and the filtered application list are both empty; the
    lists themselves are not, the guard does not apply, the two empty
    arrays are concatenated to a one-dimensional empty array, and
    [DataFrame] raises on it with four column headers: no table is
    returned. *)
Theorem nothing_selected_raises :
  extract_entries_from_txt_format empty_sections_text
  = Ok {| websites :=
            [KasperskyWebsiteEntry.mk None None None None None None];
          applications :=
            [KasperskyApplicationEntry.mk None None None None None];
          notes := [KasperskyNoteEntry.mk None None] |}
  ∧ List.filter website_selected
      [KasperskyWebsiteEntry.mk None None None None None None] = []
  ∧ List.filter application_selected
      [KasperskyApplicationEntry.mk None None None None None] = []
  ∧ create_google_passwords_df_from_entries
      {| websites :=
           [KasperskyWebsiteEntry.mk None None None None None None];
         applications :=
           [KasperskyApplicationEntry.mk None None None None None];
         notes := [KasperskyNoteEntry.mk None None] |}
    = Raise ValueError_DataFrame
  ∧ convert_txt_file_to_google_passwords_compatible_csv empty_sections_text
    = Raise ValueError_DataFrame.
Proof. repeat split; vm_compute; reflexivity. Qed.

(** C4, as the code has it.  A website entry is selected if and only if
    its URL and its name are both set and both non-empty, an application
    entry if and only if its name is set and non-empty; and a table that
    the flattening returns has one row for each selected website and one
    for each selected application. *)
Theorem selected_iff_set_and_nonempty
    (entries : KasperskyPasswordManagerEntriesSet) (table : DataFrame) :
  create_google_passwords_df_from_entries entries = Ok table →
  length (data table)
  = (length (List.filter website_selected (websites entries))
     + length (List.filter application_selected (applications entries)))%nat
  ∧ (∀ entry,
       website_selected entry = true
       ↔ ∃ url name,
           KasperskyWebsiteEntry.website_url entry = Some url
           ∧ KasperskyWebsiteEntry.website_name entry = Some name
           ∧ url ≠ [] ∧ name ≠ [])
  ∧ (∀ entry,
       application_selected entry = true
       ↔ ∃ name,
           KasperskyApplicationEntry.application_name entry = Some name
           ∧ name ≠ []).
Proof.
  intros H. split; [|split].
  - apply create_Ok_inv in H as [(Hw & Ha & ->) | (_ & _ & ->)].
    + by rewrite Hw, Ha.
    + simpl. rewrite length_app, !length_stored.
      unfold website_rows, application_rows. by rewrite !length_map.
  - intros [name url ? ? ? ?]. unfold website_selected. simpl.
    rewrite andb_true_iff. split.
    + intros [Hu Hn]. destruct url as [[|]|], name as [[|]|]; try done.
      eauto 10.
    + intros (u & n & -> & -> & Hu & Hn). by destruct u, n.
  - intros [name ? ? ? ?]. unfold application_selected. simpl. split.
    + intros Hn. destruct name as [[|]|]; try done. eauto.
    + intros (n & -> & Hn). by destruct n.
Qed.

Lemma selected_iff_set_and_nonempty_witness :
  length (data blank_url_table)
  = (length (List.filter website_selected (websites blank_url_entries))
     + length (List.filter application_selected
                 (applications blank_url_entries)))%nat.
Proof.
  apply (selected_iff_set_and_nonempty blank_url_entries blank_url_table).
  reflexivity.
Defined.

(** C4, as stated, fails: in [blank_url_entries] two websites have a
    non-null URL and a non-null name and one application has a non-null
    name, yet the table has two rows: the website whose URL is the empty
    string gives none. *)
Lemma blank_url_gives_no_row :
  ¬ (∀ entries table,
       create_google_passwords_df_from_entries entries = Ok table →
       length (data table)
       = (length (List.filter website_set_spec (websites entries))
          + length (List.filter application_set_spec
                      (applications entries)))%nat).
Proof.
  intros H. specialize (H blank_url_entries blank_url_table eq_refl).
  vm_compute in H. discriminate.
Qed.

(** ** Cells of the returned table *)

Lemma lookup_map {A B : Type} (f : A → B) (l : list A) (i : nat) (x : A) :
  l !! i = Some x → List.map f l !! i = Some (f x).
Proof.
  revert i. induction l as [|y l IH]; intros [|i]; simpl; try done.
  - by intros [= ->].
  - apply IH.
Qed.

(** The row that the [i]-th selected website has in a returned table: the
    cells of the entry, each string without its trailing NULs when the
    website rows hold strings only. *)
Lemma website_row_in_table (entries : KasperskyPasswordManagerEntriesSet)
    (table : DataFrame) (i : nat) (entry : KasperskyWebsiteEntry.t) :
  create_google_passwords_df_from_entries entries = Ok table →
  List.filter website_selected (websites entries) !! i = Some entry →
  data table !! i = Some (website_row entry)
  ∨ data table !! i
    = Some (List.map (λ c, Some (stored_unicode c)) (website_row entry)).
Proof.
  intros H Hi. apply create_Ok_inv in H as [(Hw & _ & _) | (_ & _ & ->)].
  - by rewrite Hw in Hi.
  - cbn [data]. apply (lookup_map website_row) in Hi.
    fold (website_rows entries) in Hi.
    destruct (stored_cases (website_rows entries)) as [-> | [_ ->]].
    + left. by apply lookup_app_l_Some.
    + right. apply lookup_app_l_Some. by apply lookup_map.
Qed.

(** C7.  A website whose four row cells are strings and whose URL ends in
    NUL: the extraction keeps the URL as it is written in the text, the
    url column of the table holds it without the NUL. *)
Theorem trailing_nul_of_url_is_dropped :
  (∃ entries,
     extract_entries_from_txt_format nul_url_text = Ok entries
     ∧ websites entries = [nul_url_website])
  ∧ KasperskyWebsiteEntry.website_url nul_url_website
    = Some (lit "example.com" ++ [0%N])
  ∧ convert_txt_file_to_google_passwords_compatible_csv nul_url_text
    = Ok {| columns := GOOGLE_COLUMNS;
            data :=
              [[Some (lit "example.com"); Some (lit "bob");
                Some (lit "secret1"); Some (lit "work")];
               [Some (lit "Mail"); Some (lit "bob");
                Some (lit "hunter2"); Some (lit "home")]] |}.
Proof.
  split; [|split]; [|reflexivity|vm_compute; reflexivity].
  eexists. split; vm_compute; reflexivity.
Qed.

(** Where the table is returned and the URL has no trailing NUL, the url
    cell is the URL of the entry; [name_must_contain_space] would have
    given another string. *)
Lemma website_url_in_table (entries : KasperskyPasswordManagerEntriesSet)
    (table : DataFrame) (i : nat) (entry : KasperskyWebsiteEntry.t)
    (url : str) :
  create_google_passwords_df_from_entries entries = Ok table →
  List.filter website_selected (websites entries) !! i = Some entry →
  KasperskyWebsiteEntry.website_url entry = Some url →
  nul_free_end url →
  ∃ row, data table !! i = Some row ∧ row !! 0%nat = Some (Some url).
Proof.
  intros H Hi Hu Hnul.
  destruct (website_row_in_table _ _ _ _ H Hi) as [-> | ->];
    eexists; (split; [reflexivity|]); simpl; rewrite Hu; [done|].
  simpl. by rewrite Hnul.
Qed.

Example normalization_is_not_applied :
  KasperskyWebsiteEntry.name_must_contain_space (lit "example.com")
  = lit "https://example.com"
  ∧ (data blank_url_table !! 0%nat) ≫= (.!! 0%nat)
    = Some (Some (lit "example.com")).
Proof. split; reflexivity. Qed.

(** C8, as the code has it.  Take a website entry that is selected, that
    is whose URL and name are set and non-empty, at position [i] among
    the selected websites, with password [p], a string that does not end
    in NUL.  In every table that the flattening returns, row [i] is the
    row of that entry and its password cell is [p], unchanged. *)
Theorem password_cell_is_password
    (entries : KasperskyPasswordManagerEntriesSet) (table : DataFrame)
    (i : nat) (entry : KasperskyWebsiteEntry.t) (p : str) :
  create_google_passwords_df_from_entries entries = Ok table →
  List.filter website_selected (websites entries) !! i = Some entry →
  KasperskyWebsiteEntry.password entry = Some p →
  nul_free_end p →
  ∃ row, data table !! i = Some row ∧ row !! 2%nat = Some (Some p).
Proof.
  intros H Hi Hp Hnul.
  destruct (website_row_in_table _ _ _ _ H Hi) as [-> | ->];
    eexists; (split; [reflexivity|]); simpl; rewrite Hp; [done|].
  simpl. by rewrite Hnul.
Qed.

Lemma password_cell_is_password_witness :
  ∃ row, data blank_url_table !! 0%nat = Some row
         ∧ row !! 2%nat = Some (Some (lit "secret1")).
Proof.
  apply (password_cell_is_password blank_url_entries blank_url_table 0
           example_website (lit "secret1")); reflexivity.
Defined.

(** C8, as stated, fails: [blank_url_website] has its URL and its name
    set and the password [t0psecret]; the flattening of
    [blank_url_entries] returns a table, and no row of it has that
    password. *)
Lemma blank_url_password_is_in_no_row :
  ¬ (∀ entries entry p,
       entry ∈ websites entries →
       website_set_spec entry = true →
       KasperskyWebsiteEntry.password entry = Some p →
       ∃ table row,
         create_google_passwords_df_from_entries entries = Ok table
         ∧ row ∈ data table
         ∧ row !! 2%nat = Some (Some p)).
Proof.
  intros H.
  destruct (H blank_url_entries blank_url_website (lit "t0psecret"))
    as (table & row & E & Hrow & Hp);
    [by left | reflexivity | reflexivity |].
  change (create_google_passwords_df_from_entries blank_url_entries)
    with (Ok blank_url_table) in E.
  injection E as <-. simpl in Hrow.
  apply elem_of_cons in Hrow as [-> | Hrow]; [by vm_compute in Hp|].
  apply elem_of_cons in Hrow as [-> | Hrow]; [by vm_compute in Hp|].
  by apply elem_of_nil in Hrow.
Qed.

(** ** Markers and sections of a well-formed text *)

Lemma find_nat_unfold (s sub : str) :
  find_nat s sub
  = if startswith s sub then Some 0%nat
    else match s with
         | [] => None
         | _ :: s' => option_map S (find_nat s' sub)
         end.
Proof. by destruct s. Qed.

Lemma startswith_app (p r : str) : startswith (p ++ r) p = true.
Proof. apply startswith_true. by exists r. Qed.

Lemma occurs_cons (sub : str) (c : char) (s : str) :
  occurs sub s → occurs sub (c :: s).
Proof. intros (a & b & ->). by exists (c :: a), b. Qed.

Lemma removelast_snoc (m : str) :
  m ≠ [] → ∃ l, m = removelast m ++ [l].
Proof.
  intros H. exists (List.last m 0%N). by apply app_removelast_last.
Qed.

(** A marker that is a prefix of [x ++ marker ++ y] with [x] non-empty
    begins inside [x]. *)
Lemma prefix_begins_inside (m x y r : str) :
  x ≠ [] → x ++ m ++ y = m ++ r → occurs m (x ++ removelast m).
Proof.
  intros Hx H. destruct (decide (m = [])) as [->|Hm].
  { exists [], (x ++ []). done. }
  destruct (removelast_snoc m Hm) as [l Hl].
  assert (Hlen : (length m ≤ length (x ++ removelast m))%nat).
  { rewrite Hl at 1. rewrite !length_app. simpl.
    destruct x; [done | simpl; lia]. }
  exists [], (drop (length m) (x ++ removelast m)). simpl.
  rewrite <- (take_drop (length m) (x ++ removelast m)) at 1. f_equal.
  transitivity (take (length m) (x ++ m ++ y)).
  - assert (E : x ++ m ++ y = (x ++ removelast m) ++ l :: y).
    { rewrite <- app_assoc. f_equal. rewrite Hl at 1.
      by rewrite <- app_assoc. }
    rewrite E. symmetry. by apply take_app_le.
  - by rewrite H, take_app_length.
Qed.

Lemma find_nat_first (marker body rest : str) :
  no_earlier marker body →
  find_nat (body ++ marker ++ rest) marker = Some (length body).
Proof.
  unfold no_earlier. induction body as [|c body IH]; intros H.
  - rewrite find_nat_unfold. simpl. by rewrite startswith_app.
  - rewrite find_nat_unfold.
    destruct (startswith ((c :: body) ++ marker ++ rest) marker) eqn:E.
    + apply startswith_true in E as [r E]. destruct H.
      by apply (prefix_begins_inside marker (c :: body) rest r).
    + simpl. rewrite IH; [done|]. intros Ho. apply H.
      by apply occurs_cons.
Qed.

Lemma rfind_nat_Some_occurs (s sub : str) (i : nat) :
  rfind_nat s sub = Some i → occurs sub s.
Proof.
  revert i. induction s as [|c s IH]; intros i; simpl.
  - destruct (startswith [] sub) eqn:E; [|done]. intros _.
    apply startswith_true in E as [r E]. by exists [], r.
  - destruct (rfind_nat s sub) as [j|].
    + intros _. apply occurs_cons. by apply (IH j).
    + destruct (startswith (c :: s) sub) eqn:E; [|done]. intros _.
      apply startswith_true in E as [r E]. by exists [], r.
Qed.

Lemma rfind_nat_last (marker body rest : str) :
  no_later marker rest →
  rfind_nat (body ++ marker ++ rest) marker = Some (length body).
Proof.
  unfold no_later. intros H. induction body as [|c body IH]; simpl.
  - destruct marker as [|m marker]; simpl in *.
    { destruct H. by exists [], rest. }
    destruct (rfind_nat (marker ++ rest) (m :: marker)) as [j|] eqn:E.
    + destruct H. by apply (rfind_nat_Some_occurs _ _ j).
    + by rewrite N.eqb_refl, startswith_app.
  - by rewrite IH.
Qed.

Lemma adjust_index_inside (n i : Z) : 0 ≤ i ≤ n → adjust_index n i = i.
Proof. unfold adjust_index. intros H. destruct (Z.ltb_spec i 0); lia. Qed.

Lemma slice_middle (a b c : str) :
  slice (a ++ b ++ c) (len a) (len a + len b) = b.
Proof.
  unfold slice, len. rewrite !adjust_index_inside.
  - replace (Z.to_nat (Z.of_nat (length a) + Z.of_nat (length b)
                       - Z.of_nat (length a))) with (length b) by lia.
    rewrite Nat2Z.id, drop_app_length. by rewrite take_app_length.
  - rewrite !length_app. lia.
  - rewrite !length_app. lia.
Qed.

Lemma find_first (marker body rest : str) :
  no_earlier marker body →
  find (body ++ marker ++ rest) marker = len body.
Proof. intros H. unfold find. by rewrite find_nat_first. Qed.

Lemma rfind_last (marker body rest : str) :
  no_later marker rest →
  rfind (body ++ marker ++ rest) marker = len body.
Proof. intros H. unfold rfind. by rewrite rfind_nat_last. Qed.

Lemma len_app (a b : str) : len (a ++ b) = len a + len b.
Proof. unfold len. rewrite length_app. lia. Qed.

Lemma extract_websites_body (pre body rest : str) :
  no_earlier WEBSITES_IDENTIFIER pre →
  no_earlier APPLICATIONS_IDENTIFIER (pre ++ WEBSITES_IDENTIFIER ++ body) →
  extract_websites_from_txt_format
    (pre ++ WEBSITES_IDENTIFIER ++ body ++ APPLICATIONS_IDENTIFIER ++ rest)
  = strip_nl body.
Proof.
  intros Hw Ha. unfold extract_websites_from_txt_format.
  rewrite find_first by done.
  replace (pre ++ WEBSITES_IDENTIFIER ++ body
           ++ APPLICATIONS_IDENTIFIER ++ rest)
    with ((pre ++ WEBSITES_IDENTIFIER ++ body)
          ++ APPLICATIONS_IDENTIFIER ++ rest) at 2
    by (by rewrite <- !app_assoc).
  rewrite find_first by done.
  replace (len (pre ++ WEBSITES_IDENTIFIER ++ body))
    with (len (pre ++ WEBSITES_IDENTIFIER) + len body)
    by (rewrite !len_app; lia).
  rewrite <- len_app.
  replace (pre ++ WEBSITES_IDENTIFIER ++ body
           ++ APPLICATIONS_IDENTIFIER ++ rest)
    with ((pre ++ WEBSITES_IDENTIFIER) ++ body
          ++ APPLICATIONS_IDENTIFIER ++ rest)
    by (by rewrite <- !app_assoc).
  by rewrite slice_middle.
Qed.

(** X1.  In a text where the Websites marker first occurs after [pre] and
    the Applications marker first occurs after the body that follows the
    Websites marker, [extract_websites_from_txt_format] returns that body
    without its leading and trailing newlines. *)
Theorem extract_websites_of_well_formed (pre body rest : str) :
  no_earlier WEBSITES_IDENTIFIER pre →
  no_earlier APPLICATIONS_IDENTIFIER (pre ++ WEBSITES_IDENTIFIER ++ body) →
  extract_websites_from_txt_format
    (pre ++ WEBSITES_IDENTIFIER ++ body ++ APPLICATIONS_IDENTIFIER ++ rest)
  = strip_nl body.
Proof. apply extract_websites_body. Qed.

Lemma extract_websites_of_well_formed_witness :
  extract_websites_from_txt_format
    ([] ++ WEBSITES_IDENTIFIER ++ example_block
     ++ APPLICATIONS_IDENTIFIER ++ NOTES_IDENTIFIER ++ EOF_IDENTIFIER)
  = strip_nl example_block.
Proof.
  apply (extract_websites_of_well_formed [] example_block
           (NOTES_IDENTIFIER ++ EOF_IDENTIFIER));
    apply find_nat_None; reflexivity.
Defined.

Lemma extract_applications_body (pre body rest : str) :
  no_earlier APPLICATIONS_IDENTIFIER pre →
  no_earlier NOTES_IDENTIFIER (pre ++ APPLICATIONS_IDENTIFIER ++ body) →
  extract_applications_from_txt_format
    (pre ++ APPLICATIONS_IDENTIFIER ++ body ++ NOTES_IDENTIFIER ++ rest)
  = strip_nl body.
Proof.
  intros Ha Hn. unfold extract_applications_from_txt_format.
  rewrite find_first by done.
  replace (pre ++ APPLICATIONS_IDENTIFIER ++ body
           ++ NOTES_IDENTIFIER ++ rest)
    with ((pre ++ APPLICATIONS_IDENTIFIER ++ body)
          ++ NOTES_IDENTIFIER ++ rest) at 2
    by (by rewrite <- !app_assoc).
  rewrite find_first by done.
  replace (len (pre ++ APPLICATIONS_IDENTIFIER ++ body))
    with (len (pre ++ APPLICATIONS_IDENTIFIER) + len body)
    by (rewrite !len_app; lia).
  rewrite <- len_app.
  replace (pre ++ APPLICATIONS_IDENTIFIER ++ body
           ++ NOTES_IDENTIFIER ++ rest)
    with ((pre ++ APPLICATIONS_IDENTIFIER) ++ body
          ++ NOTES_IDENTIFIER ++ rest)
    by (by rewrite <- !app_assoc).
  by rewrite slice_middle.
Qed.

(** X2.  In a text where the Applications marker first occurs after [pre]
    and the Notes marker first occurs after the body that follows the
    Applications marker, [extract_applications_from_txt_format] returns
    that body without its leading and trailing newlines. *)
Theorem extract_applications_of_well_formed (pre body rest : str) :
  no_earlier APPLICATIONS_IDENTIFIER pre →
  no_earlier NOTES_IDENTIFIER (pre ++ APPLICATIONS_IDENTIFIER ++ body) →
  extract_applications_from_txt_format
    (pre ++ APPLICATIONS_IDENTIFIER ++ body ++ NOTES_IDENTIFIER ++ rest)
  = strip_nl body.
Proof. apply extract_applications_body. Qed.

Lemma extract_applications_of_well_formed_witness :
  extract_applications_from_txt_format
    ((WEBSITES_IDENTIFIER ++ example_block) ++ APPLICATIONS_IDENTIFIER
     ++ lit "Application: Mail" ++ NOTES_IDENTIFIER ++ EOF_IDENTIFIER)
  = strip_nl (lit "Application: Mail").
Proof.
  apply (extract_applications_of_well_formed
           (WEBSITES_IDENTIFIER ++ example_block)
           (lit "Application: Mail") EOF_IDENTIFIER);
    apply find_nat_None; reflexivity.
Defined.

Lemma extract_notes_body (pre body post : str) :
  no_earlier NOTES_IDENTIFIER pre →
  no_later EOF_IDENTIFIER post →
  extract_notes_from_txt_format
    (pre ++ NOTES_IDENTIFIER ++ body ++ EOF_IDENTIFIER ++ post)
  = strip_nl body.
Proof.
  intros Hn He. unfold extract_notes_from_txt_format.
  rewrite find_first by done.
  replace (pre ++ NOTES_IDENTIFIER ++ body ++ EOF_IDENTIFIER ++ post)
    with ((pre ++ NOTES_IDENTIFIER ++ body) ++ EOF_IDENTIFIER ++ post) at 2
    by (by rewrite <- !app_assoc).
  rewrite rfind_last by done.
  replace (len (pre ++ NOTES_IDENTIFIER ++ body))
    with (len (pre ++ NOTES_IDENTIFIER) + len body)
    by (rewrite !len_app; lia).
  rewrite <- len_app.
  replace (pre ++ NOTES_IDENTIFIER ++ body ++ EOF_IDENTIFIER ++ post)
    with ((pre ++ NOTES_IDENTIFIER) ++ body ++ EOF_IDENTIFIER ++ post)
    by (by rewrite <- !app_assoc).
  by rewrite slice_middle.
Qed.

(** X3.  In a text where the Notes marker first occurs after [pre] and
    the closing marker that follows the Notes body is the last one of the
    text, [extract_notes_from_txt_format] returns that body without its
    leading and trailing newlines. *)
Theorem extract_notes_of_well_formed (pre body post : str) :
  no_earlier NOTES_IDENTIFIER pre →
  no_later EOF_IDENTIFIER post →
  extract_notes_from_txt_format
    (pre ++ NOTES_IDENTIFIER ++ body ++ EOF_IDENTIFIER ++ post)
  = strip_nl body.
Proof. apply extract_notes_body. Qed.

Lemma extract_notes_of_well_formed_witness :
  extract_notes_from_txt_format
    ((WEBSITES_IDENTIFIER ++ example_block ++ APPLICATIONS_IDENTIFIER)
     ++ NOTES_IDENTIFIER ++ lit "Name: wifi" ++ EOF_IDENTIFIER ++ [])
  = strip_nl (lit "Name: wifi").
Proof.
  apply (extract_notes_of_well_formed
           (WEBSITES_IDENTIFIER ++ example_block ++ APPLICATIONS_IDENTIFIER)
           (lit "Name: wifi") []);
    apply find_nat_None; reflexivity.
Defined.

(** ** Lines, pairs and mappings *)

Lemma no_earlier_colon_space (key : str) :
  ¬ occurs COLON_SPACE key → no_earlier COLON_SPACE key.
Proof.
  intros H (a & b & E). apply H. change (removelast COLON_SPACE) with [58%N] in E.
  destruct b as [|x b _] using rev_ind.
  - rewrite app_nil_r in E. change COLON_SPACE with ([58%N] ++ [32%N]) in E.
    rewrite app_assoc in E. by apply app_inj_tail in E as [_ ?].
  - change COLON_SPACE with [58%N; 32%N] in *.
    rewrite !app_assoc in E. apply app_inj_tail in E as [-> _].
    exists a, b. by rewrite <- app_assoc.
Qed.

Lemma key_value_from_line_format (key value : str) :
  ¬ occurs COLON_SPACE key →
  key_value_from_line (key ++ COLON_SPACE ++ value) = Ok (key, value).
Proof.
  intros H. unfold key_value_from_line, split_maxsplit1.
  rewrite find_nat_first by by apply no_earlier_colon_space.
  rewrite take_app_length.
  replace (key ++ COLON_SPACE ++ value) with ((key ++ COLON_SPACE) ++ value)
    by (by rewrite <- app_assoc).
  rewrite <- length_app. by rewrite drop_app_length.
Qed.

(** X4.  A line written as a key, [": "] and a value is read back as that
    key and that value, provided the key has no [": "] in it; the value is
    arbitrary. *)
Theorem key_value_from_line_round_trip (key value : str) :
  ¬ occurs COLON_SPACE key →
  key_value_from_line (key ++ COLON_SPACE ++ value) = Ok (key, value).
Proof. apply key_value_from_line_format. Qed.

Lemma key_value_from_line_round_trip_witness :
  key_value_from_line (lit "Comment" ++ COLON_SPACE ++ lit "a: b: c")
  = Ok (lit "Comment", lit "a: b: c").
Proof.
  apply (key_value_from_line_round_trip (lit "Comment") (lit "a: b: c")).
  apply find_nat_None. reflexivity.
Defined.

Lemma dict_of_pairs_snoc (pairs : list (str * str)) (kv : str * str) :
  dict_of_pairs (pairs ++ [kv]) = <[kv.1 := kv.2]> (dict_of_pairs pairs).
Proof. unfold dict_of_pairs. by rewrite fold_left_app. Qed.

Lemma dict_of_pairs_lookup_Some (pairs : list (str * str)) (k v : str) :
  dict_of_pairs pairs !! k = Some v → (k, v) ∈ pairs.
Proof.
  induction pairs as [|[k' v'] pairs IH] using rev_ind.
  - unfold dict_of_pairs. simpl. by rewrite lookup_empty.
  - rewrite dict_of_pairs_snoc. simpl.
    destruct (decide (k' = k)) as [->|Hne].
    + rewrite lookup_insert_eq. intros [= ->].
      apply elem_of_app. right. by left.
    + rewrite lookup_insert_ne by done. intros H.
      apply elem_of_app. left. by apply IH.
Qed.

Lemma dict_of_pairs_is_Some (pairs : list (str * str)) (k : str) :
  is_Some (dict_of_pairs pairs !! k) ↔ k ∈ List.map fst pairs.
Proof.
  induction pairs as [|[k' v'] pairs IH] using rev_ind.
  - unfold dict_of_pairs. simpl. rewrite lookup_empty. split.
    + by intros [? ?].
    + by intros ?%elem_of_nil.
  - rewrite dict_of_pairs_snoc, List.map_app, elem_of_app. simpl.
    destruct (decide (k' = k)) as [->|Hne].
    + rewrite lookup_insert_eq. split; [|by eauto].
      intros _. right. by left.
    + rewrite lookup_insert_ne by done. rewrite IH. split; [tauto|].
      intros [H|H]; [done|].
      apply elem_of_cons in H as [->|H]; [done|].
      by apply elem_of_nil in H.
Qed.

(** X5.  In the mapping built from a list of pairs, a key that several
    pairs carry has the value of the last of them. *)
Theorem dict_of_pairs_last_wins
    (before after : list (str * str)) (k v : str) :
  k ∉ List.map fst after →
  dict_of_pairs (before ++ (k, v) :: after) !! k = Some v.
Proof.
  induction after as [|[k' v'] after IH] using rev_ind; intros H.
  - by rewrite dict_of_pairs_snoc, lookup_insert_eq.
  - rewrite List.map_app, not_elem_of_app in H. destruct H as [H1 H2].
    change (before ++ (k, v) :: after ++ [(k', v')])
      with (before ++ ((k, v) :: after) ++ [(k', v')]).
    rewrite app_assoc, dict_of_pairs_snoc. simpl.
    rewrite lookup_insert_ne; [by apply IH|].
    intros ->. apply H2. by left.
Qed.

Lemma dict_of_pairs_last_wins_witness :
  dict_of_pairs
    ([(lit "Login", lit "old")]
     ++ (lit "Login", lit "new") :: [(lit "Password", lit "x")])
  !! lit "Login"
  = Some (lit "new").
Proof.
  apply (dict_of_pairs_last_wins
           [(lit "Login", lit "old")] [(lit "Password", lit "x")]
           (lit "Login") (lit "new")).
  intros H. by vm_compute in H; repeat (apply elem_of_cons in H as [H|H];
    [discriminate|]); apply elem_of_nil in H.
Defined.

(** X6.  The mapping built from a list of pairs has a value for a key
    exactly when some pair of the list carries that key. *)
Theorem dict_of_pairs_keys (pairs : list (str * str)) (k : str) :
  dict_of_pairs pairs !! k = None ↔ k ∉ List.map fst pairs.
Proof.
  rewrite <- dict_of_pairs_is_Some, eq_None_not_Some. done.
Qed.

(** ** Record blocks *)

Lemma rstrip_snoc (p : char → bool) (s : str) (c : char) :
  p c = true → rstrip p (s ++ [c]) = rstrip p s.
Proof.
  intros Hc. induction s as [|d s IH]; simpl; [by rewrite Hc|].
  by rewrite IH.
Qed.

Lemma lstrip_snoc (p : char → bool) (s : str) (c : char) :
  p c = true →
  (lstrip p (s ++ [c]) = [] ∧ lstrip p s = [])
  ∨ lstrip p (s ++ [c]) = lstrip p s ++ [c].
Proof.
  intros Hc. induction s as [|d s IH]; simpl.
  - rewrite Hc. by left.
  - destruct (p d); [done | by right].
Qed.

Lemma strip_snoc (p : char → bool) (s : str) (c : char) :
  p c = true → strip p (s ++ [c]) = strip p s.
Proof.
  intros Hc. unfold strip.
  destruct (lstrip_snoc p s c Hc) as [[-> ->] | ->]; [done|].
  by apply rstrip_snoc.
Qed.

(** X7.  Newlines before and after a record block do not matter to
    [parse_colon_separated_key_value_pairs]. *)
Theorem parse_ignores_outer_newlines (entry : str) :
  parse_colon_separated_key_value_pairs (NL :: entry)
  = parse_colon_separated_key_value_pairs entry
  ∧ parse_colon_separated_key_value_pairs (entry ++ [NL])
    = parse_colon_separated_key_value_pairs entry.
Proof.
  unfold parse_colon_separated_key_value_pairs, strip_nl. split.
  - done.
  - by rewrite strip_snoc.
Qed.

Lemma free_of_app (p : char → bool) (a b : str) :
  free_of p (a ++ b) ↔ free_of p a ∧ free_of p b.
Proof. unfold free_of. rewrite forallb_app. apply andb_true_iff. Qed.

Lemma free_of_cons (p : char → bool) (c : char) (s : str) :
  free_of p (c :: s) ↔ p c = false ∧ free_of p s.
Proof.
  unfold free_of. simpl. rewrite andb_true_iff, negb_true_iff. done.
Qed.

Lemma splitlines_go_free (after_cr : bool) (s : str) (line : str) :
  line ∈ splitlines_go after_cr s → free_of is_linebreak line.
Proof.
  revert after_cr line. induction s as [|c s IH]; intros after_cr line; simpl.
  - by intros ?%elem_of_nil.
  - destruct (after_cr && (c =? NL)%N); [apply IH|].
    destruct (is_linebreak c) eqn:E.
    + intros [->|H]%elem_of_cons; [done | by apply (IH _ _ H)].
    + destruct (splitlines_go false s) as [|l ls] eqn:Es.
      * intros [->|H]%elem_of_cons; [|by apply elem_of_nil in H].
        by apply free_of_cons.
      * intros [->|H]%elem_of_cons.
        -- apply free_of_cons. split; [done|].
           apply (IH false). rewrite Es. by left.
        -- apply (IH false). rewrite Es. by right.
Qed.

Lemma comprehension_elem {A B : Type} (f : A → result B) (l : list A)
    (ys : list B) (y : B) :
  comprehension f l = Ok ys → y ∈ ys → ∃ x, x ∈ l ∧ f x = Ok y.
Proof.
  revert ys. induction l as [|x l IH]; intros ys; simpl.
  - intros [= <-] ?%elem_of_nil. done.
  - destruct (f x) as [y'|] eqn:Ex; [|done]. simpl.
    destruct (comprehension f l) as [ys'|]; [|done]. simpl.
    intros [= <-] [->|H]%elem_of_cons.
    + exists x. split; [by left | done].
    + destruct (IH ys' eq_refl H) as (x' & Hx' & Hf).
      exists x'. split; [by right | done].
Qed.

Lemma not_occurs_nil_colon : ¬ occurs COLON_SPACE [].
Proof. by intros ?%occurs_nil_inv. Qed.

Lemma key_value_from_line_clean (line : str) (pair : str * str) :
  free_of is_linebreak line →
  key_value_from_line line = Ok pair → clean_pair pair.
Proof.
  intros Hfree H.
  destruct (key_value_from_line_cases line)
    as [(Hno & _ & E) | (k & v & Hl & Hno & _ & E)];
    rewrite E in H; injection H as <-; unfold clean_pair; simpl.
  - done.
  - rewrite Hl in Hfree.
    apply free_of_app in Hfree as [Hk Hv].
    apply free_of_app in Hv as [_ Hv]. done.
Qed.

(** X8.  In every RawEntry that [parse_colon_separated_key_value_pairs]
    returns, no key and no value contains a line boundary and no key
    contains [": "]. *)
Theorem parsed_pairs_are_clean (entry : str) (d : gmap str str) (k v : str) :
  parse_colon_separated_key_value_pairs entry = Ok d →
  d !! k = Some v →
  clean_pair (k, v).
Proof.
  unfold parse_colon_separated_key_value_pairs. intros H Hk.
  destruct (comprehension key_value_from_line (splitlines (strip_nl entry)))
    as [pairs|] eqn:E; [|done].
  simpl in H. injection H as <-.
  apply dict_of_pairs_lookup_Some in Hk.
  destruct (comprehension_elem _ _ _ _ E Hk) as (line & Hline & Hkv).
  apply (key_value_from_line_clean line); [|done].
  by apply (splitlines_go_free false (strip_nl entry)).
Qed.

Lemma parsed_pairs_are_clean_witness :
  clean_pair (lit "Login", lit "bob").
Proof.
  apply (parsed_pairs_are_clean example_block
           (dict_of_pairs
              [(lit "Website name", lit "Example");
               (lit "Website URL", lit "example.com");
               (lit "Login", lit "bob");
               (lit "Password", lit "secret1");
               (lit "Comment", lit "work")])
           (lit "Login") (lit "bob")); reflexivity.
Defined.

Lemma is_newline_linebreak (c : char) :
  is_newline c = true → is_linebreak c = true.
Proof.
  unfold is_newline. intros ->%N.eqb_eq. reflexivity.
Qed.

Lemma free_of_linebreak_newline (s : str) :
  free_of is_linebreak s → free_of is_newline s.
Proof.
  induction s as [|c s IH]; [done|].
  rewrite !free_of_cons. intros [Hc Hs]. split; [|by apply IH].
  destruct (is_newline c) eqn:E; [|done].
  apply is_newline_linebreak in E. congruence.
Qed.

Lemma lstrip_app_free (p : char → bool) (l r : str) :
  free_of p l → l ≠ [] → lstrip p (l ++ r) = l ++ r.
Proof.
  destruct l as [|c l]; [done|]. intros [Hc _]%free_of_cons _.
  simpl. by rewrite Hc.
Qed.

Lemma rstrip_free (p : char → bool) (l : str) :
  free_of p l → rstrip p l = l.
Proof.
  induction l as [|c l IH]; [done|].
  intros [Hc Hl]%free_of_cons. simpl. rewrite IH by done.
  destruct l; [by rewrite Hc | done].
Qed.

Lemma rstrip_app_free (p : char → bool) (r l : str) :
  free_of p l → l ≠ [] → rstrip p (r ++ l) = r ++ l.
Proof.
  intros Hl Hne. induction r as [|c r IH]; simpl.
  - by apply rstrip_free.
  - rewrite IH. by destruct r, l.
Qed.

Lemma join_lines_cons (l : str) (ls : list str) :
  ls ≠ [] → join_lines (l :: ls) = l ++ NL :: join_lines ls.
Proof. by destruct ls. Qed.

Lemma join_lines_first (l : str) (ls : list str) :
  ∃ r, join_lines (l :: ls) = l ++ r.
Proof.
  destruct ls as [|l' ls].
  - exists []. simpl. by rewrite app_nil_r.
  - by exists (NL :: join_lines (l' :: ls)).
Qed.

Lemma join_lines_last (lines : list str) :
  lines ≠ [] → ∃ r l, l ∈ lines ∧ join_lines lines = r ++ l.
Proof.
  induction lines as [|l lines IH]; [done|]. intros _.
  destruct lines as [|l' lines].
  - exists [], l. split; [by left | done].
  - destruct IH as (r & l0 & Hl0 & E); [done|].
    exists (l ++ NL :: r), l0. split; [by right|].
    rewrite join_lines_cons by done. rewrite E.
    by rewrite <- app_assoc.
Qed.

Lemma strip_nl_join_lines (lines : list str) :
  Forall (λ l, free_of is_linebreak l ∧ l ≠ []) lines →
  strip_nl (join_lines lines) = join_lines lines.
Proof.
  intros H. destruct lines as [|l lines]; [done|].
  unfold strip_nl, strip.
  apply Forall_cons in H as H'. destruct H' as [[Hl Hne] _].
  assert (E1 : lstrip is_newline (join_lines (l :: lines))
               = join_lines (l :: lines)).
  { destruct (join_lines_first l lines) as [r ->].
    apply lstrip_app_free; [by apply free_of_linebreak_newline | done]. }
  rewrite E1.
  destruct (join_lines_last (l :: lines)) as (r2 & l2 & Hl2 & ->); [done|].
  rewrite Forall_forall in H. destruct (H l2 Hl2) as [Hf2 Hne2].
  apply rstrip_app_free; [by apply free_of_linebreak_newline | done].
Qed.

Lemma splitlines_go_line (l r : str) :
  free_of is_linebreak l →
  splitlines_go false (l ++ NL :: r) = l :: splitlines_go false r.
Proof.
  induction l as [|c l IH]; [done|].
  intros [Hc Hl]%free_of_cons. simpl. rewrite Hc, IH by done. done.
Qed.

Lemma splitlines_go_last_line (l : str) :
  free_of is_linebreak l → l ≠ [] → splitlines_go false l = [l].
Proof.
  induction l as [|c l IH]; [done|].
  intros [Hc Hl]%free_of_cons _. simpl. rewrite Hc.
  destruct l as [|c' l]; [done|]. by rewrite IH.
Qed.

Lemma splitlines_join_lines (lines : list str) :
  Forall (λ l, free_of is_linebreak l ∧ l ≠ []) lines →
  splitlines (join_lines lines) = lines.
Proof.
  unfold splitlines. induction lines as [|l lines IH]; [done|].
  intros [[Hl Hne] H]%Forall_cons. destruct lines as [|l' lines].
  - by apply splitlines_go_last_line.
  - rewrite join_lines_cons by done.
    rewrite splitlines_go_line by done. by rewrite IH.
Qed.

Lemma format_line_free (pair : str * str) :
  clean_pair pair →
  free_of is_linebreak (format_line pair) ∧ format_line pair ≠ [].
Proof.
  intros (Hk & Hv & _). unfold format_line. split.
  - apply free_of_app. split; [done|]. by apply free_of_app.
  - by destruct (pair.1).
Qed.

Lemma comprehension_format (pairs : list (str * str)) :
  Forall clean_pair pairs →
  comprehension key_value_from_line (List.map format_line pairs) = Ok pairs.
Proof.
  induction pairs as [|[k v] pairs IH]; [done|].
  intros [(_ & _ & Hk) H]%Forall_cons.
  cbn [List.map comprehension].
  change (format_line (k, v)) with (k ++ COLON_SPACE ++ v).
  rewrite key_value_from_line_format by done.
  cbn [bind]. by rewrite IH.
Qed.

Lemma parse_formatted_block_Ok (pairs : list (str * str)) :
  Forall clean_pair pairs →
  parse_colon_separated_key_value_pairs
    (join_lines (List.map format_line pairs))
  = Ok (dict_of_pairs pairs).
Proof.
  intros H. unfold parse_colon_separated_key_value_pairs.
  assert (Hlines : Forall (λ l, free_of is_linebreak l ∧ l ≠ [])
                     (List.map format_line pairs)).
  { apply Forall_forall. intros l Hl.
    apply list_elem_of_In, in_map_iff in Hl as (pair & <- & Hp).
    apply format_line_free. rewrite Forall_forall in H. apply H.
    by apply list_elem_of_In. }
  rewrite strip_nl_join_lines, splitlines_join_lines by done.
  by rewrite comprehension_format.
Qed.

(** X9.  A record block written from a list of pairs, one [key: value]
    line per pair, the lines joined by newlines, is read back as the
    mapping of those pairs, provided no key and no value contains a line
    boundary and no key contains [": "]. *)
Theorem parse_formatted_block (pairs : list (str * str)) :
  Forall clean_pair pairs →
  parse_colon_separated_key_value_pairs
    (join_lines (List.map format_line pairs))
  = Ok (dict_of_pairs pairs).
Proof. apply parse_formatted_block_Ok. Qed.

Lemma parse_formatted_block_witness :
  parse_colon_separated_key_value_pairs
    (join_lines
       (List.map format_line
          [(lit "Website URL", lit "example.com"); (lit "Login", [])]))
  = Ok (dict_of_pairs
          [(lit "Website URL", lit "example.com"); (lit "Login", [])]).
Proof.
  apply (parse_formatted_block
           [(lit "Website URL", lit "example.com"); (lit "Login", [])]).
  repeat constructor; simpl; apply find_nat_None; reflexivity.
Defined.

(** ** Sections *)

Lemma split_go_skip (sep x r : str) :
  split_go sep (length x) (x ++ r) = split_go sep 0 r.
Proof. induction x as [|c x IH]; [done | apply IH]. Qed.

Lemma split_go_first (sep block rest : str) :
  sep ≠ [] → no_earlier sep block →
  split_go sep 0 (block ++ sep ++ rest) = (block, split rest sep).
Proof.
  unfold no_earlier. intros Hsep. induction block as [|c block IH]; intros H.
  - destruct sep as [|s sep]; [done|]. simpl.
    rewrite N.eqb_refl, startswith_app. simpl.
    rewrite Nat.sub_0_r, split_go_skip. unfold split.
    by destruct (split_go (s :: sep) 0 rest).
  - change ((c :: block) ++ sep ++ rest) with (c :: block ++ sep ++ rest).
    cbn [split_go].
    destruct (startswith (c :: block ++ sep ++ rest) sep) eqn:E.
    + apply startswith_true in E as [r E]. destruct H.
      by apply (prefix_begins_inside sep (c :: block) rest r).
    + rewrite IH; [done|]. intros Ho. apply H. by apply occurs_cons.
Qed.

Lemma split_go_none (sep s : str) :
  ¬ occurs sep s → split_go sep 0 s = (s, []).
Proof.
  induction s as [|c s IH]; [done|]. intros H. cbn [split_go].
  destruct (startswith (c :: s) sep) eqn:E.
  - apply startswith_true in E as [r E]. destruct H. by exists [], r.
  - rewrite IH; [done|]. intros Ho. apply H. by apply occurs_cons.
Qed.

Lemma RECORD_DELIMITER_nonempty : RECORD_DELIMITER ≠ [].
Proof. discriminate. Qed.

(** X10.  A section that begins with a block followed by a delimiter,
    where no delimiter begins inside the block, gives the RawEntry of that
    block followed by the RawEntries of the rest of the section. *)
Theorem parse_entries_section_first_block (block rest : str) :
  no_earlier RECORD_DELIMITER block →
  ∃ d ds,
    parse_colon_separated_key_value_pairs block = Ok d
    ∧ parse_entries_section rest = Ok ds
    ∧ parse_entries_section (block ++ RECORD_DELIMITER ++ rest)
      = Ok (d :: ds).
Proof.
  intros H.
  destruct (parse_colon_separated_key_value_pairs_Ok block) as [d Hd].
  destruct (parse_entries_section_Ok rest) as (ds & Hds & _).
  exists d, ds. repeat split; try done.
  unfold parse_entries_section in *. unfold split at 1.
  rewrite split_go_first by (done || apply RECORD_DELIMITER_nonempty).
  simpl. by rewrite Hd, Hds.
Qed.

Lemma parse_entries_section_first_block_witness :
  ∃ d ds,
    parse_colon_separated_key_value_pairs (lit "Login: a" ++ [NL]) = Ok d
    ∧ parse_entries_section ([NL] ++ lit "Login: b") = Ok ds
    ∧ parse_entries_section
        ((lit "Login: a" ++ [NL]) ++ RECORD_DELIMITER
         ++ [NL] ++ lit "Login: b")
      = Ok (d :: ds).
Proof.
  apply (parse_entries_section_first_block
           (lit "Login: a" ++ [NL]) ([NL] ++ lit "Login: b")).
  apply find_nat_None. reflexivity.
Defined.

Lemma parse_entries_section_single (section : str) :
  ¬ occurs RECORD_DELIMITER section →
  ∃ d,
    parse_colon_separated_key_value_pairs section = Ok d
    ∧ parse_entries_section section = Ok [d].
Proof.
  intros H.
  destruct (parse_colon_separated_key_value_pairs_Ok section) as [d Hd].
  exists d. split; [done|].
  unfold parse_entries_section, split. rewrite split_go_none by done.
  simpl. by rewrite Hd.
Qed.

(** X11.  A section in which the delimiter does not occur gives exactly
    one RawEntry, that of the whole section. *)
Theorem parse_entries_section_single_block (section : str) :
  ¬ occurs RECORD_DELIMITER section →
  ∃ d,
    parse_colon_separated_key_value_pairs section = Ok d
    ∧ parse_entries_section section = Ok [d].
Proof. apply parse_entries_section_single. Qed.

Lemma parse_entries_section_single_block_witness :
  ∃ d,
    parse_colon_separated_key_value_pairs example_block = Ok d
    ∧ parse_entries_section example_block = Ok [d].
Proof.
  apply (parse_entries_section_single_block example_block).
  apply find_nat_None. reflexivity.
Defined.

(** ** Outcomes of the flattening *)

Lemma map_eq_nil_iff {A B : Type} (f : A → B) (l : list A) :
  List.map f l = [] ↔ l = [].
Proof. by destruct l. Qed.

Lemma guard_true_iff (entries : KasperskyPasswordManagerEntriesSet) :
  is_empty_list (websites entries) && is_empty_list (applications entries)
  = true
  ↔ websites entries = [] ∧ applications entries = [].
Proof.
  rewrite andb_true_iff.
  by destruct (websites entries), (applications entries); simpl; intuition.
Qed.

(** X12.  Which way the flattening ends.  It returns a table exactly when
    there is no entry at all or both groups have a selected entry; it
    raises from [np.concatenate] exactly when one group has a selected
    entry and the other has none; it raises from [DataFrame] exactly when
    there are entries and none is selected. *)
Theorem create_outcome (entries : KasperskyPasswordManagerEntriesSet) :
  let w := List.filter website_selected (websites entries) in
  let a := List.filter application_selected (applications entries) in
  ((∃ table, create_google_passwords_df_from_entries entries = Ok table)
   ↔ (websites entries = [] ∧ applications entries = [])
     ∨ (w ≠ [] ∧ a ≠ []))
  ∧ (create_google_passwords_df_from_entries entries
     = Raise ValueError_concatenate
     ↔ (w ≠ [] ∧ a = []) ∨ (w = [] ∧ a ≠ []))
  ∧ (create_google_passwords_df_from_entries entries
     = Raise ValueError_DataFrame
     ↔ w = [] ∧ a = []
       ∧ ¬ (websites entries = [] ∧ applications entries = [])).
Proof.
  intros w a.
  assert (Hw : website_rows entries = [] ↔ w = [])
    by apply map_eq_nil_iff.
  assert (Ha : application_rows entries = [] ↔ a = [])
    by apply map_eq_nil_iff.
  destruct (is_empty_list (websites entries)
            && is_empty_list (applications entries)) eqn:G.
  - assert (E : create_google_passwords_df_from_entries entries
                = Ok DataFrame_empty) by by rewrite create_unfold, G.
    apply guard_true_iff in G as [G1 G2].
    assert (w = [] ∧ a = []) as [Hw0 Ha0].
    { subst w a. by rewrite G1, G2. }
    rewrite E. repeat split; try done; try eauto; intuition done.
  - assert (Hg : ¬ (websites entries = [] ∧ applications entries = [])).
    { intros H%guard_true_iff. congruence. }
    destruct (decide (w = [])) as [Hw0|Hw0], (decide (a = [])) as [Ha0|Ha0].
    + rewrite create_none_selected by tauto.
      repeat split; try done; try tauto. by intros [? ?].
    + rewrite create_one_group by tauto.
      repeat split; try done; try tauto. by intros [? ?].
    + rewrite create_one_group by tauto.
      repeat split; try done; try tauto. by intros [? ?].
    + rewrite create_both_groups by tauto.
      repeat split; try done; try tauto; eauto.
Qed.

Lemma stored_nul_free (rows : list (list cell)) :
  rows_nul_free rows → stored rows = rows.
Proof.
  intros H. destruct (stored_cases rows) as [E | [Hstr ->]]; [done|].
  induction rows as [|row rows IH]; [done|].
  apply Forall_cons in H as [Hrow H]. simpl in Hstr.
  apply andb_true_iff in Hstr as [Hs Hstr]. simpl.
  rewrite IH by done. f_equal. clear IH H Hstr.
  induction row as [|c row IH]; [done|].
  apply Forall_cons in Hrow as [Hc Hrow]. simpl in Hs.
  apply andb_true_iff in Hs as [Hs1 Hs2]. simpl.
  rewrite IH by done. by destruct c as [s|]; [simpl; rewrite Hc|].
Qed.

(** X13.  When every string of the selected rows is free of trailing NUL,
    a table that the flattening returns holds exactly the rows of the
    selected websites, in the order of the entries, followed by the rows
    of the selected applications, in the order of the entries. *)
Theorem create_rows_in_order
    (entries : KasperskyPasswordManagerEntriesSet) (table : DataFrame) :
  create_google_passwords_df_from_entries entries = Ok table →
  rows_nul_free (website_rows entries) →
  rows_nul_free (application_rows entries) →
  data table
  = List.map website_row
      (List.filter website_selected (websites entries))
    ++ List.map application_row
         (List.filter application_selected (applications entries)).
Proof.
  intros H Hw Ha.
  apply create_Ok_inv in H as [(Ew & Ea & ->) | (_ & _ & ->)].
  - by rewrite Ew, Ea.
  - simpl. by rewrite !stored_nul_free.
Qed.

Lemma create_rows_in_order_witness :
  data blank_url_table
  = List.map website_row
      (List.filter website_selected (websites blank_url_entries))
    ++ List.map application_row
         (List.filter application_selected (applications blank_url_entries)).
Proof.
  apply (create_rows_in_order blank_url_entries blank_url_table);
    [reflexivity | repeat constructor..].
Defined.

Lemma stored_Forall (P : list cell → Prop) (rows : list (list cell)) :
  Forall P rows →
  Forall (λ row, P (List.map (λ c, Some (stored_unicode c)) row)) rows →
  Forall P (stored rows).
Proof.
  intros H1 H2. destruct (stored_cases rows) as [-> | [_ ->]]; [done|].
  induction rows as [|row rows IH]; [done|].
  apply Forall_cons in H1 as [_ H1]. apply Forall_cons in H2 as [Hr H2].
  simpl. apply Forall_cons. split; [done | by apply IH].
Qed.

Lemma website_rows_shape (entries : KasperskyPasswordManagerEntriesSet) :
  Forall row_shape (stored (website_rows entries)).
Proof.
  unfold website_rows. apply stored_Forall; apply Forall_forall;
    intros row [e [<- He]]%list_elem_of_In%in_map_iff;
    apply filter_In in He as [_ He]; unfold website_selected in He;
    apply andb_true_iff in He as [He _];
    destruct e as [? [url|] ? ? ? ?]; try done; simpl in *;
    (split; [done | eauto]).
Qed.

Lemma application_rows_shape (entries : KasperskyPasswordManagerEntriesSet) :
  Forall row_shape (stored (application_rows entries)).
Proof.
  unfold application_rows. apply stored_Forall; apply Forall_forall;
    intros row [e [<- He]]%list_elem_of_In%in_map_iff;
    apply filter_In in He as [_ He]; unfold application_selected in He;
    destruct e as [[name|] ? ? ? ?]; try done; simpl in *;
    (split; [done | eauto]).
Qed.

(** X14.  Every row of a table that the flattening returns has four
    cells, of which the first, the url, is a string and not null; and the
    column headers are the four of Google Passwords unless the table is
    the empty one without headers. *)
Theorem create_table_shape
    (entries : KasperskyPasswordManagerEntriesSet) (table : DataFrame) :
  create_google_passwords_df_from_entries entries = Ok table →
  Forall (λ row, length row = 4%nat ∧ ∃ s, row !! 0%nat = Some (Some s))
    (data table)
  ∧ (columns table = GOOGLE_COLUMNS
     ∨ (columns table = [] ∧ data table = [])).
Proof.
  intros H. apply create_Ok_inv in H as [(_ & _ & ->) | (_ & _ & ->)].
  - split; [by apply Forall_nil | by right].
  - split; [|by left]. simpl. apply Forall_app. split.
    + apply website_rows_shape.
    + apply application_rows_shape.
Qed.

Lemma create_table_shape_witness :
  Forall (λ row, length row = 4%nat ∧ ∃ s, row !! 0%nat = Some (Some s))
    (data blank_url_table)
  ∧ (columns blank_url_table = GOOGLE_COLUMNS
     ∨ (columns blank_url_table = [] ∧ data blank_url_table = [])).
Proof.
  apply (create_table_shape blank_url_entries blank_url_table).
  reflexivity.
Defined.

(** ** The whole conversion *)

Lemma convert_inv (txt : str) (table : DataFrame) :
  convert_txt_file_to_google_passwords_compatible_csv txt = Ok table →
  ∃ entries,
    extract_entries_from_txt_format txt = Ok entries
    ∧ websites entries ≠ []
    ∧ create_google_passwords_df_from_entries entries = Ok table.
Proof.
  unfold convert_txt_file_to_google_passwords_compatible_csv.
  destruct (extract_entries_from_txt_format txt) as [entries|] eqn:E;
    [|done].
  cbn [bind]. intros H. exists entries. repeat split; [|done].
  apply extract_entries_from_txt_format_lengths in E as (Hw & _).
  by destruct (websites entries).
Qed.

Lemma convert_Ok_both_groups (txt : str) (table : DataFrame) :
  convert_txt_file_to_google_passwords_compatible_csv txt = Ok table →
  columns table = GOOGLE_COLUMNS
  ∧ ∃ entries,
      extract_entries_from_txt_format txt = Ok entries
      ∧ List.filter website_selected (websites entries) ≠ []
      ∧ List.filter application_selected (applications entries) ≠ []
      ∧ (2 ≤ length (data table))%nat.
Proof.
  intros (entries & He & Hne & H)%convert_inv.
  apply create_Ok_inv in H as [(Hw & _ & _) | (Hw & Ha & ->)]; [done|].
  split; [done|]. exists entries. simpl.
  rewrite length_app, !length_stored.
  unfold website_rows, application_rows in *.
  repeat split; try done.
  - intros E. by rewrite E in Hw.
  - intros E. by rewrite E in Ha.
  - destruct (List.map website_row _), (List.map application_row _);
      simpl; try done; lia.
Qed.

(** X15.  A table that the whole conversion returns for a text has the
    four headers url, username, password, note and at least two rows, one
    at least of a website and one at least of an application: the
    conversion of a text returns no table without rows. *)
Theorem convert_table_has_both_groups (txt : str) (table : DataFrame) :
  convert_txt_file_to_google_passwords_compatible_csv txt = Ok table →
  columns table = GOOGLE_COLUMNS
  ∧ ∃ entries,
      extract_entries_from_txt_format txt = Ok entries
      ∧ List.filter website_selected (websites entries) ≠ []
      ∧ List.filter application_selected (applications entries) ≠ []
      ∧ (2 ≤ length (data table))%nat.
Proof. apply convert_Ok_both_groups. Qed.

Lemma convert_table_has_both_groups_witness :
  columns nul_url_table = GOOGLE_COLUMNS
  ∧ ∃ entries,
      extract_entries_from_txt_format nul_url_text = Ok entries
      ∧ List.filter website_selected (websites entries) ≠ []
      ∧ List.filter application_selected (applications entries) ≠ []
      ∧ (2 ≤ length (data nul_url_table))%nat.
Proof.
  apply (convert_table_has_both_groups nul_url_text nul_url_table).
  vm_compute. reflexivity.
Defined.

(** X16.  What the whole conversion does with two texts on which the
    extraction returns depends on their Websites and Applications sections
    only: when the extracted Websites sections are equal and the extracted
    Applications sections are equal, the two texts are converted alike,
    whatever their Notes sections hold. *)
Theorem convert_ignores_notes (txt1 txt2 : str)
    (entries1 entries2 : KasperskyPasswordManagerEntriesSet) :
  extract_entries_from_txt_format txt1 = Ok entries1 →
  extract_entries_from_txt_format txt2 = Ok entries2 →
  extract_websites_from_txt_format txt1
  = extract_websites_from_txt_format txt2 →
  extract_applications_from_txt_format txt1
  = extract_applications_from_txt_format txt2 →
  convert_txt_file_to_google_passwords_compatible_csv txt1
  = convert_txt_file_to_google_passwords_compatible_csv txt2.
Proof.
  intros H1 H2 Hw Ha.
  unfold convert_txt_file_to_google_passwords_compatible_csv.
  rewrite H1, H2. cbn [bind].
  apply extract_entries_from_txt_format_inv in H1
    as (ws1 & aps1 & ns1 & Pw1 & Pa1 & _ & Ew1 & Ea1 & _).
  apply extract_entries_from_txt_format_inv in H2
    as (ws2 & aps2 & ns2 & Pw2 & Pa2 & _ & Ew2 & Ea2 & _).
  rewrite Hw, Pw2 in Pw1. rewrite Ha, Pa2 in Pa1.
  injection Pw1 as <-. injection Pa1 as <-.
  rewrite Ew2 in Ew1. rewrite Ea2 in Ea1.
  injection Ew1 as Ew. injection Ea1 as Ea.
  rewrite !create_unfold. unfold website_rows, application_rows.
  by rewrite Ew, Ea.
Qed.

Lemma convert_ignores_notes_witness :
  convert_txt_file_to_google_passwords_compatible_csv nul_url_text
  = convert_txt_file_to_google_passwords_compatible_csv
      nul_url_text_with_note.
Proof.
  apply (convert_ignores_notes nul_url_text nul_url_text_with_note
           {| websites := [nul_url_website];
              applications :=
                [KasperskyApplicationEntry.mk (Some (lit "Mail")) None
                   (Some (lit "bob")) (Some (lit "hunter2"))
                   (Some (lit "home"))];
              notes := [KasperskyNoteEntry.mk None None] |}
           {| websites := [nul_url_website];
              applications :=
                [KasperskyApplicationEntry.mk (Some (lit "Mail")) None
                   (Some (lit "bob")) (Some (lit "hunter2"))
                   (Some (lit "home"))];
              notes :=
                [KasperskyNoteEntry.mk (Some (lit "wifi"))
                   (Some (lit "1234"))] |});
    vm_compute; reflexivity.
Defined.

(** ** The typed records *)

Lemma website_of_dict_pairs (entry : KasperskyWebsiteEntry.t) :
  KasperskyWebsiteEntry.of_dict (dict_of_pairs (website_pairs entry))
  = Ok entry.
Proof.
  destruct entry as [[?|] [?|] [?|] [?|] [?|] [?|]]; reflexivity.
Qed.

Lemma website_pairs_keys_clean (entry : KasperskyWebsiteEntry.t) :
  Forall (λ pair : str * str,
            free_of is_linebreak pair.1 ∧ ¬ occurs COLON_SPACE pair.1)
    (website_pairs entry).
Proof.
  destruct entry as [[?|] [?|] [?|] [?|] [?|] [?|]];
    unfold website_pairs; cbn -[lit free_of occurs COLON_SPACE];
    repeat (apply Forall_cons;
            split; [split; [reflexivity
                           | apply find_nat_None; reflexivity]|]);
    constructor.
Qed.

(** X18.  A website entry written as a record block, one [alias: value]
    line for each field that is set, is read back as the same entry,
    provided the values contain no line boundary. *)
Theorem website_block_round_trip (entry : KasperskyWebsiteEntry.t) :
  Forall (λ pair, free_of is_linebreak pair.2) (website_pairs entry) →
  ∃ d,
    parse_colon_separated_key_value_pairs
      (join_lines (List.map format_line (website_pairs entry)))
    = Ok d
    ∧ KasperskyWebsiteEntry.of_dict d = Ok entry.
Proof.
  intros H. exists (dict_of_pairs (website_pairs entry)).
  split; [|apply website_of_dict_pairs].
  apply parse_formatted_block_Ok.
  pose proof (website_pairs_keys_clean entry) as Hk.
  rewrite Forall_forall in *. intros pair Hin.
  destruct (Hk pair Hin) as [H1 H2]. specialize (H pair Hin).
  by repeat split.
Qed.

Lemma website_block_round_trip_witness :
  ∃ d,
    parse_colon_separated_key_value_pairs
      (join_lines (List.map format_line (website_pairs example_website)))
    = Ok d
    ∧ KasperskyWebsiteEntry.of_dict d = Ok example_website.
Proof.
  apply (website_block_round_trip example_website).
  repeat constructor.
Defined.

(** ** The URL normalizers that nothing calls *)

Lemma https_is_not_http (v : str) :
  startswith v HTTPS = true → startswith v HTTP = false.
Proof. intros [r ->]%startswith_true. reflexivity. Qed.

Lemma http_is_not_https (v : str) :
  startswith v HTTP = true → startswith v HTTPS = false.
Proof. intros [r ->]%startswith_true. reflexivity. Qed.

(** X19.  [KasperskyWebsiteEntry.name_must_contain_space] returns its
    argument or its argument after ["https://"]; the result always begins
    with ["https://"] or ["http://"], and applying the method to its own
    result changes nothing. *)
Theorem website_normalizer_idempotent (v : str) :
  (KasperskyWebsiteEntry.name_must_contain_space v = v
   ∨ KasperskyWebsiteEntry.name_must_contain_space v = HTTPS ++ v)
  ∧ startswith (KasperskyWebsiteEntry.name_must_contain_space v) HTTPS
    || startswith (KasperskyWebsiteEntry.name_must_contain_space v) HTTP
    = true
  ∧ KasperskyWebsiteEntry.name_must_contain_space
      (KasperskyWebsiteEntry.name_must_contain_space v)
    = KasperskyWebsiteEntry.name_must_contain_space v.
Proof.
  unfold KasperskyWebsiteEntry.name_must_contain_space.
  destruct (startswith v HTTPS || startswith v HTTP) eqn:E; cbn [negb].
  - rewrite E. cbn [negb]. split; [by left | done].
  - rewrite (startswith_app HTTPS v). cbn [negb orb].
    split; [by right | done].
Qed.

(** X20.  In [KasperskyApplicationEntry.name_must_contain_space] the
    second test has no effect: the method prefixes ["https://"] exactly
    when its argument does not begin with ["https://"].  On an argument
    that begins with ["http://"] it therefore prefixes ["https://"], where
    the method of [KasperskyWebsiteEntry] returns the argument. *)
Theorem application_normalizer_prefixes_http (v rest : str) :
  KasperskyApplicationEntry.name_must_contain_space v
  = (if startswith v HTTPS then v else HTTPS ++ v)
  ∧ KasperskyApplicationEntry.name_must_contain_space (HTTP ++ rest)
    = HTTPS ++ HTTP ++ rest
  ∧ KasperskyWebsiteEntry.name_must_contain_space (HTTP ++ rest)
    = HTTP ++ rest.
Proof.
  unfold KasperskyApplicationEntry.name_must_contain_space,
    KasperskyWebsiteEntry.name_must_contain_space.
  split; [|split].
  - destruct (startswith v HTTPS) eqn:E; cbn [negb orb]; [|done].
    by rewrite (https_is_not_http v E).
  - by rewrite (http_is_not_https (HTTP ++ rest) (startswith_app _ _)).
  - by rewrite (startswith_app HTTP rest), orb_true_r.
Qed.

(** ** The command line *)

Lemma endswith_true (s suffix : str) :
  endswith s suffix = true →
  ∃ stem, s = stem ++ suffix ∧ removesuffix s suffix = stem.
Proof.
  intros H. unfold removesuffix. rewrite H.
  apply andb_true_iff in H as [Hlen H].
  apply Nat.leb_le in Hlen. apply startswith_true in H as [r H].
  exists (take (length s - length suffix) s). split; [|done].
  assert (r = []) as ->.
  { apply (f_equal length) in H.
    rewrite length_drop, length_app in H.
    apply length_zero_iff_nil. lia. }
  rewrite app_nil_r in H.
  transitivity (take (length s - length suffix) s
                ++ drop (length s - length suffix) s).
  - by rewrite take_drop.
  - by rewrite H.
Qed.

Lemma endswith_app (stem suffix : str) : endswith (stem ++ suffix) suffix = true.
Proof.
  unfold endswith. rewrite length_app. apply andb_true_iff. split.
  - apply Nat.leb_le. lia.
  - replace (length stem + length suffix - length suffix)%nat
      with (length stem) by lia.
    rewrite drop_app_length. apply startswith_true. exists [].
    by rewrite app_nil_r.
Qed.

(** X21.  [main] reaches the writing of a CSV file only when it is given
    exactly two arguments, the name of the path ends with [".txt"] and the
    path exists.  The file it writes is named after the path, [".csv"] in
    the place of [".txt"], and the table it writes has the four headers
    and at least two rows. *)
Theorem main_written
    (path_name : str → str) (path_exists : str → bool)
    (read_text : str → option str)
    (arguments : list str) (new_csv_file_name : str)
    (passwords_df : DataFrame) :
  main path_name path_exists read_text arguments
  = Written new_csv_file_name passwords_df →
  ∃ program argument stem,
    arguments = [program; argument]
    ∧ path_name argument = stem ++ TXT
    ∧ new_csv_file_name = stem ++ CSV
    ∧ path_exists argument = true
    ∧ columns passwords_df = GOOGLE_COLUMNS
    ∧ (2 ≤ length (data passwords_df))%nat.
Proof.
  unfold main. intros H.
  destruct arguments as [|program [|argument [|? ?]]]; try done.
  destruct (endswith (path_name argument) TXT) eqn:Esuffix; [|done].
  destruct (path_exists argument) eqn:Eexists; [|done].
  destruct (read_text argument) as [txt|]; [|done]. simpl in H.
  destruct (convert_txt_file_to_google_passwords_compatible_csv txt)
    as [table|] eqn:Econv; [|done].
  injection H as <- <-.
  destruct (endswith_true _ _ Esuffix) as (stem & Hname & ->).
  destruct (convert_Ok_both_groups txt table Econv)
    as (Hc & entries & _ & _ & _ & Hlen).
  exists program, argument, stem. by repeat split.
Qed.

Lemma main_written_witness :
  ∃ program argument stem,
    [lit "convert.py"; lit "export/01-02-2023.txt"] = [program; argument]
    ∧ drop 7 argument = stem ++ TXT
    ∧ lit "01-02-2023.csv" = stem ++ CSV
    ∧ true = true
    ∧ columns nul_url_table = GOOGLE_COLUMNS
    ∧ (2 ≤ length (data nul_url_table))%nat.
Proof.
  apply (main_written (drop 7) (λ _, true) (λ _, Some nul_url_text)
           [lit "convert.py"; lit "export/01-02-2023.txt"]
           (lit "01-02-2023.csv") nul_url_table).
  vm_compute. reflexivity.
Defined.

(** ** Where the constructors raise *)

Lemma substring_cons (r : str) (c : char) (s : str) :
  substring r s → substring r (c :: s).
Proof. intros (a & b & ->). by exists (c :: a), b. Qed.

Lemma split_go_parts (sep : str) (skip : nat) (s h : str) (t : list str) :
  split_go sep skip s = (h, t) →
  (∃ pre post, s = pre ++ h ++ post ∧ (length pre ≤ skip)%nat)
  ∧ ∀ piece, piece ∈ t → substring piece s.
Proof.
  revert skip h t. induction s as [|c s IH]; intros skip h t.
  - intros [= <- <-]. split; [|by intros ? ?%elem_of_nil].
    exists [], []. split; [done | simpl; lia].
  - cbn [split_go]. destruct skip as [|k].
    + destruct (startswith (c :: s) sep).
      * destruct (split_go sep (length sep - 1) s) as [h' t'] eqn:E.
        intros [= <- <-]. destruct (IH _ _ _ E) as [(pre & post & -> & _) Ht].
        split; [by exists [], (c :: pre ++ h' ++ post)|].
        intros piece [->|Hin]%elem_of_cons; apply substring_cons.
        -- by exists pre, post.
        -- by apply Ht.
      * destruct (split_go sep 0 s) as [h' t'] eqn:E.
        intros [= <- <-].
        destruct (IH _ _ _ E) as [(pre & post & -> & Hlen) Ht].
        destruct pre; [|simpl in Hlen; lia].
        split; [exists [], post; split; [done | simpl; lia]|].
        intros piece Hin. apply substring_cons. by apply Ht.
    + intros E. destruct (IH _ _ _ E) as [(pre & post & -> & Hlen) Ht].
      split.
      * exists (c :: pre), post. split; [done | simpl; lia].
      * intros piece Hin. apply substring_cons. by apply Ht.
Qed.

Lemma split_piece_substring (s sep piece : str) :
  piece ∈ split s sep → substring piece s.
Proof.
  unfold split. destruct (split_go sep 0 s) as [h t] eqn:E.
  destruct (split_go_parts _ _ _ _ _ E) as [(pre & post & -> & _) Ht].
  intros [->|Hin]%elem_of_cons; [by exists pre, post | by apply Ht].
Qed.

Lemma splitlines_go_parts (after_cr : bool) (s : str) :
  match splitlines_go after_cr s with
  | [] => True
  | l :: ls =>
      (∃ pre post, s = pre ++ l ++ post ∧ (after_cr = false → pre = []))
      ∧ ∀ line, line ∈ ls → substring line s
  end.
Proof.
  revert after_cr. induction s as [|c s IH]; intros after_cr; [done|].
  cbn [splitlines_go].
  destruct (after_cr && (c =? NL)%N) eqn:E1.
  - specialize (IH false). destruct (splitlines_go false s) as [|l ls];
      [done|].
    destruct IH as [(pre & post & -> & _) Hls]. split.
    + exists (c :: pre), post. split; [done|].
      intros ->. done.
    + intros line Hin. apply substring_cons. by apply Hls.
  - destruct (is_linebreak c).
    + split; [by exists [], (c :: s)|].
      specialize (IH (c =? CR)%N).
      destruct (splitlines_go (c =? CR)%N s) as [|l ls];
        [by intros ? ?%elem_of_nil|].
      destruct IH as [(pre & post & -> & _) Hls].
      intros line [->|Hin]%elem_of_cons; apply substring_cons.
      * by exists pre, post.
      * by apply Hls.
    + specialize (IH false). destruct (splitlines_go false s) as [|l ls].
      * split; [by exists [], s | by intros ? ?%elem_of_nil].
      * destruct IH as [(pre & post & -> & Hpre) Hls].
        rewrite (Hpre eq_refl). split; [by exists [], post|].
        intros line Hin. apply substring_cons. rewrite <- (Hpre eq_refl).
        by apply Hls.
Qed.

Lemma splitlines_line_substring (s line : str) :
  line ∈ splitlines s → substring line s.
Proof.
  unfold splitlines. pose proof (splitlines_go_parts false s) as H.
  destruct (splitlines_go false s) as [|l ls]; [by intros ?%elem_of_nil|].
  destruct H as [(pre & post & -> & _) Hls].
  intros [->|Hin]%elem_of_cons; [by exists pre, post | by apply Hls].
Qed.

(** Every key of a RawEntry is written in the block it comes from. *)
Lemma parsed_key_occurs (entry : str) (d : gmap str str) (k v : str) :
  parse_colon_separated_key_value_pairs entry = Ok d →
  d !! k = Some v → occurs k entry.
Proof.
  unfold parse_colon_separated_key_value_pairs. intros H Hk.
  destruct (comprehension key_value_from_line (splitlines (strip_nl entry)))
    as [pairs|] eqn:E; [|done].
  cbn [bind] in H. injection H as <-.
  apply dict_of_pairs_lookup_Some in Hk.
  destruct (comprehension_elem _ _ _ _ E Hk) as (line & Hline & Hkv).
  apply splitlines_line_substring in Hline.
  assert (Hkl : substring k line).
  { destruct (key_value_from_line_cases line)
      as [(_ & _ & E') | (key & value & Hl & _ & _ & E')];
      rewrite E' in Hkv; injection Hkv as <- <-.
    - apply substring_refl.
    - by exists [], (COLON_SPACE ++ value). }
  apply (substring_trans _ line); [done|].
  apply (substring_trans _ (strip_nl entry)); [done|].
  apply strip_substring.
Qed.

Lemma section_key_occurs (section : str) (dicts : list (gmap str str))
    (d : gmap str str) (k v : str) :
  parse_entries_section section = Ok dicts →
  d ∈ dicts → d !! k = Some v → occurs k section.
Proof.
  unfold parse_entries_section. intros H Hd Hk.
  destruct (comprehension_elem _ _ _ _ H Hd) as (block & Hb & Hp).
  apply (substring_trans _ block).
  - by apply (parsed_key_occurs block d k v).
  - by apply (split_piece_substring section RECORD_DELIMITER).
Qed.

Lemma section_without_reserved_name (section : str)
    (dicts : list (gmap str str)) (d : gmap str str) :
  ¬ occurs PYDANTIC_SELF section →
  parse_entries_section section = Ok dicts →
  d ∈ dicts → clashes_with_init d = false.
Proof.
  intros Hno H Hd. unfold clashes_with_init.
  destruct (d !! PYDANTIC_SELF) as [v|] eqn:E; [|done].
  destruct Hno. by apply (section_key_occurs section dicts d _ v).
Qed.

Lemma comprehension_Ok_on {A B : Type} (f : A → result B) (l : list A) :
  (∀ x, x ∈ l → ∃ y, f x = Ok y) → ∃ ys, comprehension f l = Ok ys.
Proof.
  induction l as [|x l IH]; intros Hf; [by exists []|]. simpl.
  destruct (Hf x) as [y ->]; [by left|].
  destruct IH as [ys ->]; [intros x' Hx'; apply Hf; by right|].
  by exists (y :: ys).
Qed.

Lemma typed_section_Ok {T : Type} (make : gmap str str → T)
    (of_dict : gmap str str → result T) (section : str) :
  (∀ d, of_dict d
        = if clashes_with_init d then Raise TypeError_init else Ok (make d)) →
  ¬ occurs PYDANTIC_SELF section →
  ∃ dicts typed,
    parse_entries_section section = Ok dicts
    ∧ comprehension of_dict dicts = Ok typed.
Proof.
  intros Hof Hno.
  destruct (parse_entries_section_Ok section) as (dicts & H & _).
  destruct (comprehension_Ok_on of_dict dicts) as [typed Ht].
  { intros d Hd. rewrite Hof.
    rewrite (section_without_reserved_name section dicts d); eauto. }
  by exists dicts, typed.
Qed.

Lemma extract_websites_substring (txt : str) :
  substring (extract_websites_from_txt_format txt) txt.
Proof.
  unfold extract_websites_from_txt_format, strip_nl.
  eapply substring_trans; [apply strip_substring | apply slice_substring].
Qed.

Lemma extract_applications_substring (txt : str) :
  substring (extract_applications_from_txt_format txt) txt.
Proof.
  unfold extract_applications_from_txt_format, strip_nl.
  eapply substring_trans; [apply strip_substring | apply slice_substring].
Qed.

Lemma extract_notes_substring (txt : str) :
  substring (extract_notes_from_txt_format txt) txt.
Proof.
  unfold extract_notes_from_txt_format, strip_nl.
  eapply substring_trans; [apply strip_substring | apply slice_substring].
Qed.

(** X17.  The extraction returns an entries set for every text in which
    the name [__pydantic_self__] does not occur: the calls of the model
    constructors, the only calls of the extraction that can raise, raise
    on no RawEntry of such a text. *)
Theorem extraction_returns_without_reserved_name (txt : str) :
  ¬ occurs PYDANTIC_SELF txt →
  ∃ entries, extract_entries_from_txt_format txt = Ok entries.
Proof.
  intros Hno. unfold extract_entries_from_txt_format.
  destruct (typed_section_Ok _ KasperskyWebsiteEntry.of_dict
              (extract_websites_from_txt_format txt) (λ d, eq_refl))
    as (ws & w & -> & Hw).
  { intros H. apply Hno.
    apply (substring_trans _ _ _ H), extract_websites_substring. }
  destruct (typed_section_Ok _ KasperskyApplicationEntry.of_dict
              (extract_applications_from_txt_format txt) (λ d, eq_refl))
    as (aps & a & -> & Ha).
  { intros H. apply Hno.
    apply (substring_trans _ _ _ H), extract_applications_substring. }
  destruct (typed_section_Ok _ KasperskyNoteEntry.of_dict
              (extract_notes_from_txt_format txt) (λ d, eq_refl))
    as (ns & n & -> & Hn).
  { intros H. apply Hno.
    apply (substring_trans _ _ _ H), extract_notes_substring. }
  cbn [bind]. rewrite Hw, Ha, Hn. cbn [bind]. eauto.
Qed.

Lemma extraction_returns_without_reserved_name_witness :
  ∃ entries, extract_entries_from_txt_format example_text = Ok entries.
Proof.
  apply (extraction_returns_without_reserved_name example_text).
  apply find_nat_None. vm_compute. reflexivity.
Defined.

(** A line whose key is the reserved name: the constructor raises and
    the extraction with it. *)
Example extraction_raises_on_reserved_name :
  extract_entries_from_txt_format
    (WEBSITES_IDENTIFIER ++ lit "__pydantic_self__: x"
     ++ APPLICATIONS_IDENTIFIER ++ NOTES_IDENTIFIER ++ EOF_IDENTIFIER)
  = Raise TypeError_init.
Proof. vm_compute. reflexivity. Qed.

(** ** An export with one website and one application *)

Lemma application_of_dict_pairs (entry : KasperskyApplicationEntry.t) :
  KasperskyApplicationEntry.of_dict (dict_of_pairs (application_pairs entry))
  = Ok entry.
Proof.
  destruct entry as [[?|] [?|] [?|] [?|] [?|]]; reflexivity.
Qed.

Lemma application_pairs_keys_clean (entry : KasperskyApplicationEntry.t) :
  Forall (λ pair : str * str,
            free_of is_linebreak pair.1 ∧ ¬ occurs COLON_SPACE pair.1)
    (application_pairs entry).
Proof.
  destruct entry as [[?|] [?|] [?|] [?|] [?|]];
    unfold application_pairs; cbn -[lit free_of occurs COLON_SPACE];
    repeat (apply Forall_cons;
            split; [split; [reflexivity
                           | apply find_nat_None; reflexivity]|]);
    constructor.
Qed.

Lemma clean_pairs_of_values (pairs : list (str * str)) :
  Forall (λ pair : str * str,
            free_of is_linebreak pair.1 ∧ ¬ occurs COLON_SPACE pair.1)
    pairs →
  Forall (λ pair, free_of is_linebreak pair.2) pairs →
  Forall clean_pair pairs.
Proof.
  rewrite !Forall_forall. intros Hk Hv pair Hin.
  destruct (Hk pair Hin) as [H1 H2]. specialize (Hv pair Hin).
  by repeat split.
Qed.

Lemma formatted_section (pairs : list (str * str)) :
  Forall clean_pair pairs →
  ¬ occurs RECORD_DELIMITER (join_lines (List.map format_line pairs)) →
  parse_entries_section
    (strip_nl (join_lines (List.map format_line pairs)))
  = Ok [dict_of_pairs pairs].
Proof.
  intros Hc Hd.
  assert (Hlines : Forall (λ l, free_of is_linebreak l ∧ l ≠ [])
                     (List.map format_line pairs)).
  { apply Forall_forall. intros l Hl.
    apply list_elem_of_In, in_map_iff in Hl as (pair & <- & Hp).
    apply format_line_free. rewrite Forall_forall in Hc. apply Hc.
    by apply list_elem_of_In. }
  rewrite strip_nl_join_lines by done.
  destruct (parse_entries_section_single _ Hd) as (d & Hp & ->).
  rewrite parse_formatted_block_Ok in Hp by done. by injection Hp as <-.
Qed.

(** X22.  An export that holds one website entry and one application
    entry, each written as a block of [alias: value] lines, is converted
    to the table of the four headers with the row of the website followed
    by the row of the application, whatever the Notes section holds as
    long as the name [__pydantic_self__] does not occur in it.  This
    needs: values without line boundaries and without trailing NUL,
    blocks without the record delimiter and without an earlier occurrence
    of the section markers, and both entries selected. *)
Theorem convert_export_text
    (website : KasperskyWebsiteEntry.t)
    (application : KasperskyApplicationEntry.t) (notes_body : str) :
  Forall (λ pair, free_of is_linebreak pair.2) (website_pairs website) →
  Forall (λ pair, free_of is_linebreak pair.2)
    (application_pairs application) →
  ¬ occurs RECORD_DELIMITER (website_block website) →
  ¬ occurs RECORD_DELIMITER (application_block application) →
  no_earlier APPLICATIONS_IDENTIFIER
    (WEBSITES_IDENTIFIER ++ website_block website) →
  no_earlier NOTES_IDENTIFIER
    ((WEBSITES_IDENTIFIER ++ website_block website)
     ++ APPLICATIONS_IDENTIFIER ++ application_block application) →
  ¬ occurs PYDANTIC_SELF notes_body →
  website_selected website = true →
  application_selected application = true →
  rows_nul_free [website_row website; application_row application] →
  convert_txt_file_to_google_passwords_compatible_csv
    (export_text website application notes_body)
  = Ok {| columns := GOOGLE_COLUMNS;
          data := [website_row website; application_row application] |}.
Proof.
  intros Hwv Hav Hwd Had Hwa Han Hself Hws Has Hnul.
  unfold convert_txt_file_to_google_passwords_compatible_csv,
    extract_entries_from_txt_format.
  assert (Ew : extract_websites_from_txt_format
                 (export_text website application notes_body)
               = strip_nl (website_block website)).
  { apply (extract_websites_body [] (website_block website)
             (application_block application ++ NOTES_IDENTIFIER
              ++ notes_body ++ EOF_IDENTIFIER)); [|done].
    apply find_nat_None. reflexivity. }
  assert (Ea : extract_applications_from_txt_format
                 (export_text website application notes_body)
               = strip_nl (application_block application)).
  { unfold export_text. rewrite (app_assoc WEBSITES_IDENTIFIER).
    apply (extract_applications_body
             (WEBSITES_IDENTIFIER ++ website_block website)
             (application_block application)
             (notes_body ++ EOF_IDENTIFIER)); done. }
  assert (En : extract_notes_from_txt_format
                 (export_text website application notes_body)
               = strip_nl notes_body).
  { replace (export_text website application notes_body)
      with (((WEBSITES_IDENTIFIER ++ website_block website)
             ++ APPLICATIONS_IDENTIFIER ++ application_block application)
            ++ NOTES_IDENTIFIER ++ notes_body ++ EOF_IDENTIFIER ++ [])
      by (unfold export_text; by rewrite app_nil_r, <- !app_assoc).
    apply extract_notes_body; [done|].
    apply find_nat_None. reflexivity. }
  rewrite Ew, Ea, En. unfold website_block, application_block in *.
  rewrite !formatted_section;
    try done;
    try (apply clean_pairs_of_values;
         [apply website_pairs_keys_clean || apply application_pairs_keys_clean
         | done]).
  cbn [bind].
  destruct (typed_section_Ok _ KasperskyNoteEntry.of_dict
              (strip_nl notes_body) (λ d, eq_refl))
    as (ns & n & -> & Hn).
  { intros H. apply Hself.
    apply (substring_trans _ _ _ H), strip_substring. }
  cbn [bind comprehension].
  rewrite website_of_dict_pairs, application_of_dict_pairs, Hn.
  cbn [bind].
  rewrite create_both_groups.
  - unfold website_rows, application_rows. cbn [websites applications].
    cbn [List.filter]. rewrite Hws, Has. cbn [List.map].
    apply Forall_cons in Hnul as [H1 Hnul].
    rewrite !stored_nul_free; [done | done | by apply Forall_cons].
  - unfold website_rows. cbn [websites List.filter]. by rewrite Hws.
  - unfold application_rows. cbn [applications List.filter]. by rewrite Has.
Qed.

Lemma convert_export_text_witness :
  convert_txt_file_to_google_passwords_compatible_csv
    (export_text example_website example_application (lit "Name: wifi"))
  = Ok {| columns := GOOGLE_COLUMNS;
          data := [website_row example_website;
                   application_row example_application] |}.
Proof.
  apply (convert_export_text example_website example_application
           (lit "Name: wifi"));
    try (apply find_nat_None; vm_compute; reflexivity);
    try reflexivity;
    repeat constructor.
Defined.
